(** * Sandify: the memoized vertex pipeline of [src/features/machine/selectors.js]

    The module turns the layers of a drawing into one continuous path.
    Each layer owns a chain of reselect selectors (raw vertices, transformed
    vertices, machine-bound "computed" vertices, preview vertices); a
    module-level registry hands out one selector per maker and layer, and a
    module-level LRU cache keeps the raw vertices of expensive shapes.

    The embedding follows the file function by function.  Module-level
    mutable state ([cache], [cachedSelectors], the closures' memo cells and
    the console) is one explicit [World]; every selector is a computation in
    the state-and-exception monad [M] over it.  The registry, the offsets
    and the layers are plain JavaScript objects: a read by layer id also
    finds the members every object inherits ([property]). *)

From stdpp Require Import gmap strings list fin_maps pretty.
From Stdlib Require Import ZArith QArith Lia.

Set Warnings "-clear-no-such-hyp".
Open Scope Z_scope.

(** ** Values owned by the collaborators *)

(** The types the pipeline only passes around: [Vertex] is a Victor point,
    [Num] a JavaScript number of a layer's transform, [Attrs] the remaining
    attributes of a layer (shape type and shape options), [Settings] the
    machine settings, [EffectList] what [makeGetEffects] selects, [Cache] the
    state of the [lru-cache] instance. *)
Class Domain := {
  Vertex : Type;
  Num : Type;
  Attrs : Type;
  Settings : Type;
  EffectList : Type;
  Cache : Type;
  Vertex_eq_dec :: EqDecision Vertex;
  Num_eq_dec :: EqDecision Num;
  Attrs_eq_dec :: EqDecision Attrs;
  Settings_eq_dec :: EqDecision Settings;
  EffectList_eq_dec :: EqDecision EffectList
}.

(** A call returns, throws (JavaScript [TypeError]), or exhausts the
    recursion budget of the model (see [callComputedVertices]).  The fourth
    outcome is the edge of the model: [Builtin key] says that the call went
    on with the member [key] of [Object.prototype] (a built-in function such
    as [toString], or the prototype itself for [__proto__]) where the code
    expects a selector, a layer or an offset.  What the code does from there
    is up to the built-in and is not followed: about the value of such a
    call the model says nothing. *)
Inductive Outcome (A : Type) : Type :=
  | Ret (a : A)
  | Throw (e : string)
  | OutOfFuel
  | Builtin (key : string).
Arguments Ret {A} a.
Arguments Throw {A} e.
Arguments OutOfFuel {A}.
Arguments Builtin {A} key.

(** ** Plain objects

    [cachedSelectors] and the objects inside it, [offsets], and the [layers]
    of a state are plain objects.  A read [obj[key]] finds the own property
    [key] of the object; when there is none, the member of that name that
    every object inherits from [Object.prototype]; and [undefined]
    otherwise.  An inherited member is a function (the prototype object for
    [__proto__]): it is truthy, and reading a property of a layer from it
    gives [undefined]. *)
Definition prototypeNames : list string :=
  ["constructor"; "__defineGetter__"; "__defineSetter__"; "hasOwnProperty";
   "__lookupGetter__"; "__lookupSetter__"; "isPrototypeOf";
   "propertyIsEnumerable"; "toString"; "valueOf"; "__proto__";
   "toLocaleString"].

Definition inherited (key : string) : bool :=
  bool_decide (key ∈ prototypeNames).

Inductive Property (A : Type) : Type :=
  | Own (a : A)
  | Inherited (key : string)
  | Undefined.
Arguments Own {A} a.
Arguments Inherited {A} key.
Arguments Undefined {A}.

(** [obj[key]], for the plain object whose own properties are [obj]. *)
Definition property {A} (obj : gmap string A) (key : string) : Property A :=
  match obj !! key with
  | Some a => Own a
  | None => if inherited key then Inherited key else Undefined
  end.

(** Arguments and result of the last run of a selector's result function
    ([lastArgs], [lastResult] of reselect's [defaultMemoize]); a selector
    that never ran has no entry. *)
Abbreviation Memo A R := (gmap nat (A * R)).

Section Model.
Context {D : Domain}.

(** JavaScript objects and arrays are compared by identity in reselect
    ([===]).  Each carries the address it was allocated at next to its
    content. *)
Record Layer := {
  layer_addr : nat;
  usesMachine : bool;
  shouldCache : bool;
  dragging : bool;
  effect : bool;
  connectionMethod : string;
  autosize : bool;
  startingWidth : Num;
  startingHeight : Num;
  offsetX : Num;
  offsetY : Num;
  rotation : Num;
  attrs : Attrs
}.

Record Machine := { machine_addr : nat; settings : Settings }.

(** [state.layers.byId]-style mapping from layer id to layer. *)
Record Layers := { layers_addr : nat; byId : gmap string Layer }.

(** An array of vertices. *)
Record Arr := { arr_addr : nat; elems : list Vertex }.

Record Effects := { effects_addr : nat; effect_list : EffectList }.

Record Preview := { sliderValue : Q }.

(** The argument of the selectors.  The store's root state and the literal
    [{ layers: layers, machine: machine }] of [makeGetComputedVertices] are
    both of this shape; the literal has no [preview]. *)
Record State := {
  layers : Layers;
  machine : Machine;
  preview : option Preview
}.

(** The argument of a shape's generator and of [getCacheKey]:
    [{ shape: layer, machine: machine }], with [machine] null for a shape
    that does not use the machine. *)
Record ShapeState := { shape : Layer; shape_machine : option Machine }.

(** Strict equality [===] on the inputs of a selector: the same object, that
    is the same address and content. *)
#[global] Instance Layer_eq_dec : EqDecision Layer.
Proof. solve_decision. Defined.
#[global] Instance Machine_eq_dec : EqDecision Machine.
Proof. solve_decision. Defined.
#[global] Instance Layers_eq_dec : EqDecision Layers.
Proof. solve_decision. Defined.
#[global] Instance Arr_eq_dec : EqDecision Arr.
Proof. solve_decision. Defined.
#[global] Instance Effects_eq_dec : EqDecision Effects.
Proof. solve_decision. Defined.

(** ** Module-level state *)

Record World := {
  next_addr : nat;
  (** [cachedSelectors]: maker name, then layer id, to the selector. *)
  cachedSelectors : gmap string (gmap string nat);
  (** History of the calls [fn(layerId)] made by [getCachedSelector]. *)
  created : list (string * string * nat);
  memoLayerMachine : Memo (Layers * Machine) (option Machine);
  memoLayerVertices : Memo (option Layer * option Machine) Arr;
  memoTransformed : Memo (Arr * option Layer * Effects) Arr;
  memoComputed :
    Memo (Arr * Z * option string * Z * Layers * Machine) Arr;
  memoPreview : Memo (Layers * Machine * Arr * Arr) Arr;
  cache : Cache;
  (** History of the calls [metashape.getVertices(state)]. *)
  generated : list ShapeState;
  console : list string
}.

Definition set_next_addr (n : nat) (w : World) : World :=
  {| next_addr := n; cachedSelectors := cachedSelectors w;
     created := created w; memoLayerMachine := memoLayerMachine w;
     memoLayerVertices := memoLayerVertices w;
     memoTransformed := memoTransformed w; memoComputed := memoComputed w;
     memoPreview := memoPreview w; cache := cache w;
     generated := generated w; console := console w |}.

Definition set_cachedSelectors (r : gmap string (gmap string nat))
    (w : World) : World :=
  {| next_addr := next_addr w; cachedSelectors := r;
     created := created w; memoLayerMachine := memoLayerMachine w;
     memoLayerVertices := memoLayerVertices w;
     memoTransformed := memoTransformed w; memoComputed := memoComputed w;
     memoPreview := memoPreview w; cache := cache w;
     generated := generated w; console := console w |}.

Definition set_created (c : list (string * string * nat)) (w : World) : World :=
  {| next_addr := next_addr w; cachedSelectors := cachedSelectors w;
     created := c; memoLayerMachine := memoLayerMachine w;
     memoLayerVertices := memoLayerVertices w;
     memoTransformed := memoTransformed w; memoComputed := memoComputed w;
     memoPreview := memoPreview w; cache := cache w;
     generated := generated w; console := console w |}.

Definition set_memoLayerMachine (m : Memo (Layers * Machine) (option Machine))
    (w : World) : World :=
  {| next_addr := next_addr w; cachedSelectors := cachedSelectors w;
     created := created w; memoLayerMachine := m;
     memoLayerVertices := memoLayerVertices w;
     memoTransformed := memoTransformed w; memoComputed := memoComputed w;
     memoPreview := memoPreview w; cache := cache w;
     generated := generated w; console := console w |}.

Definition set_memoLayerVertices
    (m : Memo (option Layer * option Machine) Arr) (w : World) : World :=
  {| next_addr := next_addr w; cachedSelectors := cachedSelectors w;
     created := created w; memoLayerMachine := memoLayerMachine w;
     memoLayerVertices := m;
     memoTransformed := memoTransformed w; memoComputed := memoComputed w;
     memoPreview := memoPreview w; cache := cache w;
     generated := generated w; console := console w |}.

Definition set_memoTransformed (m : Memo (Arr * option Layer * Effects) Arr)
    (w : World) : World :=
  {| next_addr := next_addr w; cachedSelectors := cachedSelectors w;
     created := created w; memoLayerMachine := memoLayerMachine w;
     memoLayerVertices := memoLayerVertices w;
     memoTransformed := m; memoComputed := memoComputed w;
     memoPreview := memoPreview w; cache := cache w;
     generated := generated w; console := console w |}.

Definition set_memoComputed
    (m : Memo (Arr * Z * option string * Z * Layers * Machine) Arr)
    (w : World) : World :=
  {| next_addr := next_addr w; cachedSelectors := cachedSelectors w;
     created := created w; memoLayerMachine := memoLayerMachine w;
     memoLayerVertices := memoLayerVertices w;
     memoTransformed := memoTransformed w; memoComputed := m;
     memoPreview := memoPreview w; cache := cache w;
     generated := generated w; console := console w |}.

Definition set_memoPreview (m : Memo (Layers * Machine * Arr * Arr) Arr)
    (w : World) : World :=
  {| next_addr := next_addr w; cachedSelectors := cachedSelectors w;
     created := created w; memoLayerMachine := memoLayerMachine w;
     memoLayerVertices := memoLayerVertices w;
     memoTransformed := memoTransformed w; memoComputed := memoComputed w;
     memoPreview := m; cache := cache w;
     generated := generated w; console := console w |}.

Definition set_cache (c : Cache) (w : World) : World :=
  {| next_addr := next_addr w; cachedSelectors := cachedSelectors w;
     created := created w; memoLayerMachine := memoLayerMachine w;
     memoLayerVertices := memoLayerVertices w;
     memoTransformed := memoTransformed w; memoComputed := memoComputed w;
     memoPreview := memoPreview w; cache := c;
     generated := generated w; console := console w |}.

Definition set_generated (g : list ShapeState) (w : World) : World :=
  {| next_addr := next_addr w; cachedSelectors := cachedSelectors w;
     created := created w; memoLayerMachine := memoLayerMachine w;
     memoLayerVertices := memoLayerVertices w;
     memoTransformed := memoTransformed w; memoComputed := memoComputed w;
     memoPreview := memoPreview w; cache := cache w;
     generated := g; console := console w |}.

Definition set_console (c : list string) (w : World) : World :=
  {| next_addr := next_addr w; cachedSelectors := cachedSelectors w;
     created := created w; memoLayerMachine := memoLayerMachine w;
     memoLayerVertices := memoLayerVertices w;
     memoTransformed := memoTransformed w; memoComputed := memoComputed w;
     memoPreview := memoPreview w; cache := cache w;
     generated := generated w; console := c |}.

(** ** The monad of the selectors *)

Definition M (A : Type) : Type := World → Outcome A * World.

#[global] Instance M_ret : MRet M := λ A a w, (Ret a, w).
#[global] Instance M_bind : MBind M := λ A B f m w,
  match m w with
  | (Ret a, w') => f a w'
  | (Throw e, w') => (Throw e, w')
  | (OutOfFuel, w') => (OutOfFuel, w')
  | (Builtin key, w') => (Builtin key, w')
  end.

Definition throw {A} (e : string) : M A := λ w, (Throw e, w).
Definition outOfFuel {A} : M A := λ w, (OutOfFuel, w).
Definition builtin {A} (key : string) : M A := λ w, (Builtin key, w).
Definition gets {A} (f : World → A) : M A := λ w, (Ret (f w), w).
Definition modify (f : World → World) : M unit := λ w, (Ret tt, f w).

(** A computation that answers: in no world does it exhaust the recursion
    budget. *)
Definition answers {A} (m : M A) : Prop := ∀ w, (m w).1 ≠ OutOfFuel.

(** A fresh address, for a new array or a new closure. *)
Definition alloc : M nat :=
  n ← gets next_addr; modify (set_next_addr (S n));; mret n.

(** A new array with the given elements. *)
Definition newArr (l : list Vertex) : M Arr :=
  a ← alloc; mret {| arr_addr := a; elems := l |}.

(** ** The collaborators *)

(** Everything the module imports and calls.  The selectors of
    [../layers/selectors] are given by what they select from a state; the
    functions of [./computer], [../../models/shapes] and
    [../../common/geometry] are pure functions of their arguments;
    [JSON_stringify] is [None] where [JSON.stringify] throws; [cache_get] and
    [cache_set] are the two methods of the [lru-cache] instance used here;
    the [num_] operations are JavaScript's arithmetic on numbers;
    [darken_hex x] is [Color('yellow').darken(x).hex()]. *)
Class Externals := {
  getLayersById : State → Layers;
  getLayer : string → State → option Layer;
  getLayerIndex : string → State → Z;
  getNumVisibleLayers : State → Z;
  getVisibleLayerIds : State → list string;
  getNextLayerId : string → State → option string;
  getEffects : string → State → Effects;
  getVertices : ShapeState → list Vertex;
  transformShapes : list Vertex → option Layer → Effects → list Vertex;
  polishVertices : list Vertex → Machine → bool → bool → list Vertex;
  nearestPerimeterVertex : Machine → option Vertex → Vertex;
  tracePerimeter : Machine → Vertex → Vertex → list Vertex;
  rotate : Vertex → Num → Vertex;
  offset : Vertex → Num → Num → Vertex;
  getSliderBounds : list Vertex → Q → Z * Z;
  JSON_stringify : ShapeState → option string;
  cache_get : string → Cache → option Arr * Cache;
  cache_set : string → Arr → Cache → Cache;
  num_of_Z : Z → Num;
  num_neg : Num → Num;
  num_sub : Num → Num → Num;
  num_mul : Num → Num → Num;
  num_div : Num → Num → Num;
  darken_hex : Num → string
}.

Context {E : Externals}.

Definition getCacheKey (state : ShapeState) : M string :=
  match JSON_stringify state with
  | Some key => mret key
  | None => throw "TypeError"
  end.

Definition getState (state : State) : State := state.
Definition getMachine (state : State) : Machine := machine state.
Definition getPreview (state : State) : option Preview := preview state.

(** ** The registry of selectors *)

(** A maker ([makeGet...]): its [name] property (the identifier of one of
    the nine makers below) and what calling it does.  The selector it
    returns is a closure; the model keeps the closure's address. *)
Record Maker := { name : string; make : string → M nat }.

(** Modelled from the spec: [createSelector] belongs to the reselect
    package, which is not in the sources.  It returns a new selector (a
    computation node) that holds the last-seen input references and the
    last-produced output, and recomputes only when an input reference
    changed: [createSelector] allocates the node, [memoized] is one
    evaluation of its result function on the inputs just selected.  (A
    node called again with the very same state object selects the same
    inputs.) *)
Definition createSelector : M nat := alloc.

Definition memoized {A R} `{EqDecision A} (get : World → Memo A R)
    (set : Memo A R → World → World) (sel : nat) (args : A)
    (resultFunc : M R) : M R :=
  let recompute :=
    result ← resultFunc;
    modify (λ w, set (<[sel := (args, result)]> (get w)) w);;
    mret result in
  memo ← gets get;
  match memo !! sel with
  | Some (lastArgs, lastResult) =>
      if bool_decide (lastArgs = args) then
        modify (λ w, set (<[sel := (args, lastResult)]> (get w)) w);;
        mret lastResult
      else recompute
  | None => recompute
  end.

(** [getCachedSelector]: "ensures we only create a single selector for a
    given layer".  The object [cachedSelectors[fn.name]] is a plain [{}]:
    for a [layerId] that names a member of [Object.prototype] the test
    [!cachedSelectors[fn.name][layerId]] finds that member, no maker is
    called, and the member is what the function returns, whatever [fn]
    is. *)
Definition getCachedSelector (fn : Maker) (layerId : string) : M nat :=
  selectors ← gets cachedSelectors;
  (if selectors !! name fn is None then
     modify (λ w, set_cachedSelectors (<[name fn := ∅]> (cachedSelectors w)) w)
   else mret tt);;
  selectors ← gets cachedSelectors;
  match property (selectors !!! name fn) layerId with
  | Own selector => mret selector
  | Inherited key => builtin key
  | Undefined =>
      selector ← make fn layerId;
      modify (λ w,
        set_created (created w ++ [(name fn, layerId, selector)])
          (set_cachedSelectors
             (<[name fn := <[layerId := selector]> (cachedSelectors w !!! name fn)]>
                (cachedSelectors w)) w));;
      mret selector
  end.

(** The makers imported from [../layers/selectors]: each call builds one
    selector. *)
Definition makeGetLayer : Maker :=
  {| name := "makeGetLayer"; make := λ _, createSelector |}.
Definition makeGetLayerIndex : Maker :=
  {| name := "makeGetLayerIndex"; make := λ _, createSelector |}.
Definition makeGetNextLayerId : Maker :=
  {| name := "makeGetNextLayerId"; make := λ _, createSelector |}.
Definition makeGetEffects : Maker :=
  {| name := "makeGetEffects"; make := λ _, createSelector |}.

(** The makers of this module.  A maker resolves the selectors it depends on
    through the registry, in the order of its dependency array, and then
    builds its own. *)
Definition makeGetLayerMachine : Maker :=
  {| name := "makeGetLayerMachine"; make := λ _, createSelector |}.

Definition makeGetLayerVertices : Maker :=
  {| name := "makeGetLayerVertices";
     make := λ layerId,
       getCachedSelector makeGetLayer layerId;;
       getCachedSelector makeGetLayerMachine layerId;;
       createSelector |}.

Definition makeGetTransformedVertices : Maker :=
  {| name := "makeGetTransformedVertices";
     make := λ layerId,
       getCachedSelector makeGetLayerVertices layerId;;
       getCachedSelector makeGetLayer layerId;;
       getCachedSelector makeGetEffects layerId;;
       createSelector |}.

Definition makeGetComputedVertices : Maker :=
  {| name := "makeGetComputedVertices";
     make := λ layerId,
       getCachedSelector makeGetTransformedVertices layerId;;
       getCachedSelector makeGetLayerIndex layerId;;
       getCachedSelector makeGetNextLayerId layerId;;
       createSelector |}.

Definition makeGetPreviewVertices : Maker :=
  {| name := "makeGetPreviewVertices";
     make := λ layerId,
       getCachedSelector makeGetTransformedVertices layerId;;
       getCachedSelector makeGetComputedVertices layerId;;
       createSelector |}.

(** ** The selectors of a layer *)

(** A selector made by one of the imported makers, applied to a state. *)
Definition callLayer (layerId : string) (state : State) : M (option Layer) :=
  getCachedSelector makeGetLayer layerId;;
  mret (getLayer layerId state).
Definition callLayerIndex (layerId : string) (state : State) : M Z :=
  getCachedSelector makeGetLayerIndex layerId;;
  mret (getLayerIndex layerId state).
Definition callNextLayerId (layerId : string) (state : State)
    : M (option string) :=
  getCachedSelector makeGetNextLayerId layerId;;
  mret (getNextLayerId layerId state).
Definition callEffects (layerId : string) (state : State) : M Effects :=
  getCachedSelector makeGetEffects layerId;;
  mret (getEffects layerId state).

(** Result function of [makeGetLayerMachine]: "by returning null for shapes
    which don't use machine settings, this selector will ensure transformed
    vertices are not redrawn when machine settings change". *)
Definition LayerMachine_result (layerId : string) (layers : Layers)
    (machine : Machine) : M (option Machine) :=
  match property (byId layers) layerId with
  | Undefined => throw "TypeError"
  | Own layer => mret (if usesMachine layer then Some machine else None)
  | Inherited _ => mret None
  end.

(** The selector of [makeGetLayerMachine(layerId)] applied to [state]. *)
Definition callLayerMachine (layerId : string) (state : State)
    : M (option Machine) :=
  selector ← getCachedSelector makeGetLayerMachine layerId;
  let layers := getLayersById state in
  let machine := getMachine state in
  memoized memoLayerMachine set_memoLayerMachine selector (layers, machine)
    (LayerMachine_result layerId layers machine).

(** [metashape.getVertices(state)], a new array; the call is recorded. *)
Definition generate (state : ShapeState) : M Arr :=
  modify (λ w, set_generated (generated w ++ [state]) w);;
  newArr (getVertices state).

Definition cacheGet (key : string) : M (option Arr) := λ w,
  let (found, c) := cache_get key (cache w) in (Ret found, set_cache c w).
Definition cacheSet (key : string) (vertices : Arr) : M unit :=
  modify (λ w, set_cache (cache_set key vertices (cache w)) w).

(** Result function of [makeGetLayerVertices]: the raw stage. *)
Definition LayerVertices_result (layer : option Layer)
    (machine : option Machine) : M Arr :=
  match layer with
  | None => throw "TypeError"
  | Some layer =>
      let state := {| shape := layer; shape_machine := machine |} in
      if shouldCache layer then
        key ← getCacheKey state;
        vertices ← cacheGet key;
        match vertices with
        | Some vertices => mret vertices
        | None =>
            vertices ← generate state;
            cacheSet key vertices;;
            mret vertices
        end
      else
        if negb (dragging (shape state)) && effect (shape state) then newArr []
        else generate state
  end.

Definition callLayerVertices (layerId : string) (state : State) : M Arr :=
  selector ← getCachedSelector makeGetLayerVertices layerId;
  layer ← callLayer layerId state;
  machine ← callLayerMachine layerId state;
  memoized memoLayerVertices set_memoLayerVertices selector (layer, machine)
    (LayerVertices_result layer machine).

(** Result function of [makeGetTransformedVertices]. *)
Definition TransformedVertices_result (vertices : Arr) (layer : option Layer)
    (effects : Effects) : M Arr :=
  newArr (transformShapes (elems vertices) layer effects).

Definition callTransformedVertices (layerId : string) (state : State)
    : M Arr :=
  selector ← getCachedSelector makeGetTransformedVertices layerId;
  vertices ← callLayerVertices layerId state;
  layer ← callLayer layerId state;
  effects ← callEffects layerId state;
  memoized memoTransformed set_memoTransformed selector
    (vertices, layer, effects)
    (TransformedVertices_result vertices layer effects).

Definition console_log (line : string) : M unit :=
  modify (λ w, set_console (console w ++ [line]) w).

(** The world after the [console.log] that opens the result function of
    [makeGetComputedVertices]. *)
Definition logged (layerId : string) (w : World) : World :=
  set_console (console w ++ ["computed vertices for layer" +:+ layerId]) w.

(** [nextLayerId && layers[nextLayerId]]: [Undefined] stands for every
    falsy value (null, undefined, and the empty string, which is falsy
    itself). *)
Definition nextLayerOf (nextLayerId : option string) (layers : Layers)
    : Property Layer :=
  match nextLayerId with
  | Some id =>
      if bool_decide (id = "") then Undefined else property (byId layers) id
  | None => Undefined
  end.

(** The result function of [makeGetComputedVertices] up to the call of
    [polishVertices]: the value of [vertices] at that point.  [computedOf]
    is [getCachedSelector(makeGetComputedVertices, nextLayerId)] applied to
    a state; [bridge] is the body of [if (nextLayer && !nextLayer.dragging)].
    Where [layers[...]] finds a member of [Object.prototype], [dragging] and
    [connectionMethod] read from it are undefined. *)
Definition stitched (computedOf : string → State → M Arr) (layerId : string)
    (vertices : Arr) (layerIndex : Z) (nextLayerId : option string)
    (numLayers : Z) (layers : Layers) (machine : Machine)
    : M (list Vertex) :=
  let state := {| layers := layers; machine := machine; preview := None |} in
  let bridge (nextLayerId : string) : M (list Vertex) :=
    nextVertices ← computedOf nextLayerId state;
    match elems nextVertices with
    | next0 :: _ =>
        match property (byId layers) layerId with
        | Undefined => throw "TypeError"
        | Own layer =>
            if bool_decide (connectionMethod layer = "along perimeter")
            then
              let start := last (elems vertices) in
              let end_ := next0 in
              let startPerimeter :=
                nearestPerimeterVertex machine start in
              let endPerimeter :=
                nearestPerimeterVertex machine (Some end_) in
              mret (elems vertices ++
                    [startPerimeter] ++
                    tracePerimeter machine startPerimeter endPerimeter ++
                    [endPerimeter; end_])
            else mret (elems vertices ++ [next0])
        | Inherited _ => mret (elems vertices ++ [next0])
        end
    | [] => mret (elems vertices)
    end in
  console_log ("computed vertices for layer" +:+ layerId);;
  if bool_decide (layerIndex < numLayers - 1) then
    match nextLayerOf nextLayerId layers, nextLayerId with
    | Own nextLayer, Some nextLayerId =>
        if negb (dragging nextLayer) then bridge nextLayerId
        else mret (elems vertices)
    | Inherited _, Some nextLayerId => bridge nextLayerId
    | _, _ => mret (elems vertices)
    end
  else mret (elems vertices).

(** Result function of [makeGetComputedVertices]. *)
Definition ComputedVertices_result (computedOf : string → State → M Arr)
    (layerId : string) (vertices : Arr) (layerIndex : Z)
    (nextLayerId : option string) (numLayers : Z) (layers : Layers)
    (machine : Machine) : M Arr :=
  vertices ← stitched computedOf layerId vertices layerIndex nextLayerId
               numLayers layers machine;
  newArr (polishVertices vertices machine
            (bool_decide (layerIndex = 0))
            (bool_decide (layerIndex = numLayers - 1))).

(** The selector of [makeGetComputedVertices(layerId)] applied to [state].
    The result function calls the selector of the next layer; [fuel] bounds
    the depth of these nested calls, and the call is [OutOfFuel] when the
    bound is reached. *)
Fixpoint callComputedVertices (fuel : nat) (layerId : string) (state : State)
    : M Arr :=
  match fuel with
  | O => outOfFuel
  | S fuel =>
      selector ← getCachedSelector makeGetComputedVertices layerId;
      vertices ← callTransformedVertices layerId state;
      layerIndex ← callLayerIndex layerId state;
      nextLayerId ← callNextLayerId layerId state;
      let numLayers := getNumVisibleLayers state in
      let layers := getLayersById state in
      let machine := getMachine state in
      memoized memoComputed set_memoComputed selector
        (vertices, layerIndex, nextLayerId, numLayers, layers, machine)
        (ComputedVertices_result (callComputedVertices fuel) layerId
           vertices layerIndex nextLayerId numLayers layers machine)
  end.

(** Result function of [makeGetPreviewVertices].  With a member of
    [Object.prototype] for [layer] the vertices are placed by undefined
    numbers; that is not followed. *)
Definition PreviewVertices_result (layerId : string) (layers : Layers)
    (machine : Machine) (transformedVertices computedVertices : Arr)
    : M Arr :=
  match property (byId layers) layerId with
  | Undefined => throw "TypeError"
  | Inherited key => builtin key
  | Own layer =>
      let vertices :=
        if dragging layer then transformedVertices else computedVertices in
      let konvaScale := if autosize layer then num_of_Z 5 else num_of_Z 1 in
      let konvaDeltaX :=
        num_mul (num_div (num_sub konvaScale (num_of_Z 1)) (num_of_Z 2))
          (startingWidth layer) in
      let konvaDeltaY :=
        num_mul (num_div (num_sub konvaScale (num_of_Z 1)) (num_of_Z 2))
          (startingHeight layer) in
      newArr
        ((λ vertex,
            offset
              (rotate
                 (offset vertex (num_neg (offsetX layer))
                    (num_neg (offsetY layer)))
                 (rotation layer))
              konvaDeltaX (num_neg konvaDeltaY)) <$> elems vertices)
  end.

Definition callPreviewVertices (fuel : nat) (layerId : string)
    (state : State) : M Arr :=
  selector ← getCachedSelector makeGetPreviewVertices layerId;
  let layers := getLayersById state in
  let machine := getMachine state in
  transformedVertices ← callTransformedVertices layerId state;
  computedVertices ← callComputedVertices fuel layerId state;
  memoized memoPreview set_memoPreview selector
    (layers, machine, transformedVertices, computedVertices)
    (PreviewVertices_result layerId layers machine transformedVertices
       computedVertices).

(** ** Views over all visible layers *)

(** The selectors below are module-level [createSelector] nodes over
    [getState] and [getVisibleLayerIds]; each definition is one run of the
    result function on the inputs selected from [state]. *)

(** [getAllComputedVertices]: "a flattened list of all visible computed
    vertices (across layers)". *)
Definition getAllComputedVertices (fuel : nat) (state : State)
    : M (list Vertex) :=
  let visibleLayerIds := getVisibleLayerIds state in
  perLayer ← mapM (λ id, callComputedVertices fuel id (getState state))
                  visibleLayerIds;
  mret (concat (elems <$> perLayer)).

(** [getAllPreviewVertices]. *)
Definition getAllPreviewVertices (fuel : nat) (state : State)
    : M (list Vertex) :=
  let visibleLayerIds := getVisibleLayerIds state in
  perLayer ← mapM (λ id, callPreviewVertices fuel id (getState state))
                  visibleLayerIds;
  mret (concat (elems <$> perLayer)).

(** The [forEach] of [getVertexOffsets], from the current values of
    [offsets] and [offset].  An id reaches the assignment after its selector
    returned: it becomes, or is, an own property of [offsets]. *)
Fixpoint offsets_forEach (fuel : nat) (state : State) (ids : list string)
    (offsets : gmap string Z) (offset : Z) : M (gmap string Z) :=
  match ids with
  | [] => mret offsets
  | id :: ids =>
      vertices ← callComputedVertices fuel id state;
      offsets_forEach fuel state ids (<[id := offset]> offsets)
        (offset + Z.of_nat (length (elems vertices)) + 1)
  end.

(** [getVertexOffsets]: "the starting offset for each layer, given previous
    layers". *)
Definition getVertexOffsets (fuel : nat) (state : State)
    : M (gmap string Z) :=
  offsets_forEach fuel (getState state) (getVisibleLayerIds state) ∅ 0.

(** The indices visited by [for (let i = end; i >= start; i--)]. *)
Definition countdown (start end_ : Z) : list Z :=
  reverse (seqZ start (end_ - start + 1)).

(** Result function of [getSliderColors(layerId)]: "a hash of
    { index => color }"; [gradient] is the part from [startColor] on.
    [offsets[layerId]] is undefined for a layer that is not in the offsets
    and whose id the object does not inherit: [end] is then NaN and the loop
    does not run.  For an id that names a member of [Object.prototype],
    [start] is that member and [end] a string; that is not followed. *)
Definition SliderColors_result (layerId : string) (vertices : list Vertex)
    (preview : option Preview) (layerVertices : Arr)
    (offsets : gmap string Z) : M (gmap Z string) :=
  match preview with
  | None => throw "TypeError"
  | Some preview =>
      let sliderValue := sliderValue preview in
      let colors : gmap Z string := ∅ in
      let gradient (start end_ : Z) : M (gmap Z string) :=
        let colorStep :=
          num_div (num_div (num_of_Z 3) (num_of_Z 8))
            (num_of_Z (end_ - start)) in
        mret (foldl
                (λ colors i,
                   <[i := darken_hex
                            (num_mul colorStep (num_of_Z (end_ - i)))]>
                     colors)
                colors (countdown start end_)) in
      if negb (Qle_bool sliderValue 0) then
        let bounds := getSliderBounds vertices sliderValue in
        gradient bounds.1 bounds.2
      else
        match property offsets layerId with
        | Own start =>
            gradient start (start + Z.of_nat (length (elems layerVertices)))
        | Inherited key => builtin key
        | Undefined => mret colors
        end
  end.

Definition getSliderColors (fuel : nat) (layerId : string) (state : State)
    : M (gmap Z string) :=
  vertices ← getAllPreviewVertices fuel state;
  let preview := getPreview state in
  layerVertices ← callPreviewVertices fuel layerId state;
  offsets ← getVertexOffsets fuel state;
  SliderColors_result layerId vertices preview layerVertices offsets.

(** The literal [{ layers: layers, machine: machine }] the computed stage
    hands to the selector of the next layer. *)
Definition nestedState (state : State) : State :=
  {| layers := getLayersById state; machine := getMachine state;
     preview := None |}.

(** ** The life of the module *)

(** The own property [layerId] of [cachedSelectors[name]], if there is
    one. *)
Definition selectorAt (w : World) (name layerId : string) : option nat :=
  (cachedSelectors w !!! name) !! layerId.

(** The makers that reach the registry. *)
Inductive Kind :=
  | KLayer | KLayerIndex | KNextLayerId | KEffects
  | KLayerMachine | KLayerVertices | KTransformedVertices
  | KComputedVertices | KPreviewVertices.

Definition maker (k : Kind) : Maker :=
  match k with
  | KLayer => makeGetLayer
  | KLayerIndex => makeGetLayerIndex
  | KNextLayerId => makeGetNextLayerId
  | KEffects => makeGetEffects
  | KLayerMachine => makeGetLayerMachine
  | KLayerVertices => makeGetLayerVertices
  | KTransformedVertices => makeGetTransformedVertices
  | KComputedVertices => makeGetComputedVertices
  | KPreviewVertices => makeGetPreviewVertices
  end.

(** What the rest of the application can ask of the module: a selector from
    the registry, a layer's preview, or one of the views. *)
Inductive Request :=
  | Lookup (k : Kind) (layerId : string)
  | PreviewOf (fuel : nat) (layerId : string) (state : State)
  | AllComputed (fuel : nat) (state : State)
  | AllPreview (fuel : nat) (state : State)
  | Offsets (fuel : nat) (state : State)
  | SliderColors (fuel : nat) (layerId : string) (state : State).

(** The module state after serving a request, and after a sequence of
    requests. *)
Definition serve (w : World) (r : Request) : World :=
  match r with
  | Lookup k layerId => (getCachedSelector (maker k) layerId w).2
  | PreviewOf fuel layerId state => (callPreviewVertices fuel layerId state w).2
  | AllComputed fuel state => (getAllComputedVertices fuel state w).2
  | AllPreview fuel state => (getAllPreviewVertices fuel state w).2
  | Offsets fuel state => (getVertexOffsets fuel state w).2
  | SliderColors fuel layerId state => (getSliderColors fuel layerId state w).2
  end.

Definition serveAll (w : World) (rs : list Request) : World :=
  foldl serve w rs.

(** The invariant of the module state: the registry holds exactly the
    selectors the history records, none under a name that objects inherit,
    each at an address of its own that was allocated; the memo of a
    [makeGetLayerMachine] selector belongs to a registered selector and
    holds what its result function returns on the remembered arguments. *)
Record consistent (w : World) : Prop := {
  registry_history : ∀ k i n,
    selectorAt w k i = Some n ↔ (k, i, n) ∈ created w;
  registry_own : ∀ k i n, selectorAt w k i = Some n → inherited i = false;
  history_allocated : ∀ k i n, (k, i, n) ∈ created w → (n < next_addr w)%nat;
  history_addresses : NoDup (created w).*2;
  machine_memo : ∀ n allLayers m r,
    memoLayerMachine w !! n = Some ((allLayers, m), r) →
    ∃ i, selectorAt w "makeGetLayerMachine" i = Some n ∧
         ∀ w0, LayerMachine_result i allLayers m w0 = (Ret r, w0)
}.

(** The two assignments of [getCachedSelector]:
    [cachedSelectors[fn.name] = {}] when the name is new, and
    [cachedSelectors[fn.name][layerId] = selector]. *)
Definition withName (fn : Maker) (w : World) : World :=
  if cachedSelectors w !! name fn is None
  then set_cachedSelectors (<[name fn := ∅]> (cachedSelectors w)) w
  else w.

Definition stored (fn : Maker) (layerId : string) (selector : nat)
    (w : World) : World :=
  set_created (created w ++ [(name fn, layerId, selector)])
    (set_cachedSelectors
       (<[name fn := <[layerId := selector]> (cachedSelectors w !!! name fn)]>
          (cachedSelectors w)) w).

(** A computation whose every run relates the world before to the world
    after. *)
Definition steps (R : relation World) {A} (m : M A) : Prop :=
  ∀ w, R w (m w).2.

(** Registered selectors stay registered. *)
Definition persists (w w' : World) : Prop :=
  ∀ k i n, selectorAt w k i = Some n → selectorAt w' k i = Some n.

(** Only selectors of the makers named in [names] were registered. *)
Definition touches (names : list string) (w w' : World) : Prop :=
  ∀ k i, k ∉ names → selectorAt w' k i = selectorAt w k i.

(** The module state grows: it stays consistent and keeps its selectors. *)
Definition grows (w w' : World) : Prop :=
  (consistent w → consistent w') ∧ persists w w'.

(** The raw stage was not run: its memo, the cache and the history of
    generator calls are as before. *)
Definition rawUntouched (w w' : World) : Prop :=
  memoLayerVertices w' = memoLayerVertices w ∧
  cache w' = cache w ∧ generated w' = generated w.

(** The names a maker registers selectors under, its own included. *)
Definition registers (k : Kind) : list string :=
  match k with
  | KLayer => ["makeGetLayer"]
  | KLayerIndex => ["makeGetLayerIndex"]
  | KNextLayerId => ["makeGetNextLayerId"]
  | KEffects => ["makeGetEffects"]
  | KLayerMachine => ["makeGetLayerMachine"]
  | KLayerVertices =>
      ["makeGetLayerVertices"; "makeGetLayer"; "makeGetLayerMachine"]
  | KTransformedVertices =>
      ["makeGetTransformedVertices"; "makeGetLayerVertices"; "makeGetLayer";
       "makeGetLayerMachine"; "makeGetEffects"]
  | KComputedVertices =>
      ["makeGetComputedVertices"; "makeGetTransformedVertices";
       "makeGetLayerVertices"; "makeGetLayer"; "makeGetLayerMachine";
       "makeGetEffects"; "makeGetLayerIndex"; "makeGetNextLayerId"]
  | KPreviewVertices =>
      ["makeGetPreviewVertices"; "makeGetComputedVertices";
       "makeGetTransformedVertices"; "makeGetLayerVertices"; "makeGetLayer";
       "makeGetLayerMachine"; "makeGetEffects"; "makeGetLayerIndex";
       "makeGetNextLayerId"]
  end.

(** What a call of [getCachedSelector] with one of the module's makers does
    to the module state. *)
Definition registering (k : Kind) (layerId : string) : Prop :=
  steps grows (getCachedSelector (maker k) layerId) ∧
  steps (touches (registers k)) (getCachedSelector (maker k) layerId) ∧
  steps rawUntouched (getCachedSelector (maker k) layerId).

(** The empty module state at load time. *)
Definition initial (c : Cache) : World :=
  {| next_addr := 0; cachedSelectors := ∅; created := [];
     memoLayerMachine := ∅; memoLayerVertices := ∅; memoTransformed := ∅;
     memoComputed := ∅; memoPreview := ∅; cache := c; generated := [];
     console := [] |}.

(** ** Statistics and the preview track *)

(** What [getVerticesStats] and [makeGetPreviewTrackVertices] use besides:
    the coordinates of a point and [new Victor(x, y)], [+], [Math.pow],
    [Math.sqrt] and [Math.floor] on numbers, [transformShape] of
    [./computer], and the attributes [numLoops] (an integer) and
    [trackEnabled] of a layer. *)
Class Measures := {
  vertex_x : Vertex → Num;
  vertex_y : Vertex → Num;
  victor : Num → Num → Vertex;
  num_add : Num → Num → Num;
  num_pow : Num → Num → Num;
  num_sqrt : Num → Num;
  num_floor : Num → Num;
  numLoops : Layer → Z;
  trackEnabled : Layer → bool;
  transformShape : Layer → Vertex → Z → Z → Vertex
}.

Context {X : Measures}.

Record Stats := { numPoints : nat; distance : Num }.

(** The distance term [getVerticesStats] adds for [vertex] after
    [previous]. *)
Definition segment (vertex previous : Vertex) : Num :=
  num_sqrt
    (num_add
       (num_pow (num_sub (vertex_x vertex) (vertex_x previous)) (num_of_Z 2))
       (num_pow (num_sub (vertex_y vertex) (vertex_y previous)) (num_of_Z 2))).

(** Result function of [getVerticesStats]; the [forEach] carries
    [distance] and [previous], which starts as null. *)
Definition VerticesStats_result (vertices : list Vertex) : Stats :=
  let final :=
    foldl
      (λ (acc : Num * option Vertex) vertex,
         (match acc.2 with
          | Some previous => num_add acc.1 (segment vertex previous)
          | None => acc.1
          end, Some vertex))
      (num_of_Z 0, None) vertices in
  {| numPoints := length vertices; distance := num_floor final.1 |}.

(** [getVerticesStats]: "statistics across all layers". *)
Definition getVerticesStats (fuel : nat) (state : State) : M Stats :=
  vertices ← getAllComputedVertices fuel state;
  mret (VerticesStats_result vertices).

(** Result function of [makeGetPreviewTrackVertices(layerId)].  A member
    of [Object.prototype] has no [numLoops]: the loop does not run and the
    track is empty. *)
Definition PreviewTrackVertices_result (layerId : string) (layers : Layers)
    : M Arr :=
  match property (byId layers) layerId with
  | Undefined => throw "TypeError"
  | Inherited _ => newArr []
  | Own layer =>
      let numLoops := numLoops layer in
      let konvaScale := if autosize layer then num_of_Z 5 else num_of_Z 1 in
      let konvaDeltaX :=
        num_mul (num_div (num_sub konvaScale (num_of_Z 1)) (num_of_Z 2))
          (startingWidth layer) in
      let konvaDeltaY :=
        num_mul (num_div (num_sub konvaScale (num_of_Z 1)) (num_of_Z 2))
          (startingHeight layer) in
      let trackVertices :=
        foldl
          (λ trackVertices i,
             if trackEnabled layer
             then trackVertices ++
                  [transformShape layer (victor (num_of_Z 0) (num_of_Z 0)) i i]
             else trackVertices)
          [] (seqZ 0 numLoops) in
      newArr
        ((λ vertex,
            offset
              (rotate
                 (offset vertex (num_neg (offsetX layer))
                    (num_neg (offsetY layer)))
                 (rotation layer))
              konvaDeltaX (num_neg konvaDeltaY)) <$> trackVertices)
  end.

(** The selector of [makeGetPreviewTrackVertices(layerId)] applied to
    [state]; its only input is [getLayersById]. *)
Definition callPreviewTrackVertices (layerId : string) (state : State)
    : M Arr :=
  PreviewTrackVertices_result layerId (getLayersById state).

(** ** More ways to relate module states *)

(** A computation that returns in every world. *)
Definition succeeds {A} (m : M A) : Prop := ∀ w, ∃ a w', m w = (Ret a, w').

(** Nothing but the registry entries of one layer, the history and the
    allocator changed. *)
Record quiet (layerId : string) (w w' : World) : Prop := {
  quiet_layers : ∀ k i, i ≠ layerId → selectorAt w' k i = selectorAt w k i;
  quiet_machine : memoLayerMachine w' = memoLayerMachine w;
  quiet_vertices : memoLayerVertices w' = memoLayerVertices w;
  quiet_transformed : memoTransformed w' = memoTransformed w;
  quiet_computed : memoComputed w' = memoComputed w;
  quiet_preview : memoPreview w' = memoPreview w;
  quiet_cache : cache w' = cache w;
  quiet_generated : generated w' = generated w;
  quiet_console : console w' = console w
}.

(** The selectors and the memo of the machine selectors are kept. *)
Definition keepsMachine (w w' : World) : Prop :=
  persists w w' ∧ memoLayerMachine w' = memoLayerMachine w.

(** The selectors and the memos of the raw stage are kept. *)
Definition keepsRaw (w w' : World) : Prop :=
  persists w w' ∧
  memoLayerMachine w' = memoLayerMachine w ∧
  memoLayerVertices w' = memoLayerVertices w.

(** The machine selector of a layer last ran on the inputs of [state] and
    gave [m]. *)
Definition settledMachine (layerId : string) (state : State)
    (m : option Machine) (w : World) : Prop :=
  ∃ sel, selectorAt w "makeGetLayerMachine" layerId = Some sel ∧
         memoLayerMachine w !! sel
         = Some ((getLayersById state, getMachine state), m).

(** The raw stage of a layer last ran on the inputs of [state] and gave
    [vertices]. *)
Definition settledRaw (layerId : string) (state : State) (vertices : Arr)
    (w : World) : Prop :=
  ∃ sel m,
    selectorAt w "makeGetLayerVertices" layerId = Some sel ∧
    is_Some (selectorAt w "makeGetLayer" layerId) ∧
    settledMachine layerId state m w ∧
    memoLayerVertices w !! sel = Some ((getLayer layerId state, m), vertices).

(** The transformed stage of a layer last ran on the inputs of [state] and
    gave [vertices]. *)
Definition settledTransformed (layerId : string) (state : State)
    (vertices : Arr) (w : World) : Prop :=
  ∃ sel raw,
    selectorAt w "makeGetTransformedVertices" layerId = Some sel ∧
    is_Some (selectorAt w "makeGetEffects" layerId) ∧
    settledRaw layerId state raw w ∧
    memoTransformed w !! sel
    = Some ((raw, getLayer layerId state, getEffects layerId state), vertices).

End Model.

(** ** A concrete instance

    Integer points, integer layer numbers, and small stand-ins for the
    collaborators; used to run the pipeline on concrete drawings. *)
Module Demo.

(** The attributes of a demo shape: the points it draws and an option that
    may hold a BigInt, which [JSON.stringify] refuses. *)
Record options := { points : list (Z * Z); bigint_option : option Z }.

#[export] Instance options_eq_dec : EqDecision options.
Proof. solve_decision. Defined.

#[export] Instance domain : Domain :=
  {| Vertex := Z * Z; Num := Z; Attrs := options; Settings := Z;
     EffectList := unit; Cache := list (string * (nat * list (Z * Z))) |}.

(** The visible order lists the present layers among [A], [B], [C]. *)
Definition visible (state : State) : list string :=
  filter (λ id, is_Some (byId (layers state) !! id)) ["A"; "B"; "C"].

Fixpoint index_of (id : string) (ids : list string) (i : Z) : Z :=
  match ids with
  | [] => -1
  | x :: ids => if bool_decide (x = id) then i else index_of id ids (i + 1)
  end.

Fixpoint next_of (id : string) (ids : list string) : option string :=
  match ids with
  | x :: ((y :: _) as ids) => if bool_decide (x = id) then Some y else next_of id ids
  | _ => None
  end.

Definition serialize (state : ShapeState) : option string :=
  match bigint_option (attrs (shape state)) with
  | Some _ => None
  | None =>
      Some (String.concat ","
              ((λ p, pretty p.1 +:+ ":" +:+ pretty p.2) <$>
                 points (attrs (shape state)))
            +:+ "|" +:+
            match shape_machine state with
            | Some m => pretty (settings m)
            | None => "null"
            end)
  end.

(** A budgeted store, most recently used first; the budget is the sum of
    the lengths of the stored arrays, as configured in the module
    ([max: 500000], [length: n => n.length]). *)
Definition lru_get (key : string) (c : list (string * (nat * list (Z * Z))))
    : option Arr * list (string * (nat * list (Z * Z))) :=
  match list_find (λ e, e.1 = key) c with
  | Some (_, (k, (a, l))) =>
      (Some {| arr_addr := a; elems := l |},
       (k, (a, l)) :: filter (λ e, e.1 ≠ key) c)
  | None => (None, c)
  end.

Fixpoint lru_trim (budget : Z) (c : list (string * (nat * list (Z * Z))))
    : list (string * (nat * list (Z * Z))) :=
  match c with
  | [] => []
  | (k, (a, l)) :: c =>
      if decide (Z.of_nat (length l) ≤ budget)
      then (k, (a, l)) :: lru_trim (budget - Z.of_nat (length l)) c
      else []
  end.

Definition lru_set (key : string) (v : Arr)
    (c : list (string * (nat * list (Z * Z))))
    : list (string * (nat * list (Z * Z))) :=
  lru_trim 500000
    ((key, (arr_addr v, elems v)) :: filter (λ e, e.1 ≠ key) c).

#[export] Instance externals : Externals :=
  {| getLayersById := layers;
     getLayer := λ id state, byId (layers state) !! id;
     getLayerIndex := λ id state, index_of id (visible state) 0;
     getNumVisibleLayers := λ state, Z.of_nat (length (visible state));
     getVisibleLayerIds := visible;
     getNextLayerId := λ id state, next_of id (visible state);
     getEffects := λ _ _, {| effects_addr := 0; effect_list := tt |};
     getVertices := λ state,
       match shape_machine state with
       | Some m => (λ p, (p.1 + settings m, p.2)) <$> points (attrs (shape state))
       | None => points (attrs (shape state))
       end;
     transformShapes := λ vertices layer _,
       match layer with
       | Some layer => (λ p, (p.1 + offsetX layer, p.2 + offsetY layer)) <$> vertices
       | None => vertices
       end;
     polishVertices := λ vertices _ _ _, vertices;
     nearestPerimeterVertex := λ m v,
       match v with
       | Some p => (settings m, p.2)
       | None => (settings m, 0)
       end;
     tracePerimeter := λ _ a b, [(a.1, (a.2 + b.2) / 2)];
     rotate := λ p r, if bool_decide (r = 0) then p else (- p.2, p.1);
     offset := λ p dx dy, (p.1 + dx, p.2 + dy);
     getSliderBounds := λ vertices _, (0, Z.of_nat (length vertices));
     JSON_stringify := serialize;
     cache_get := lru_get;
     cache_set := lru_set;
     num_of_Z := λ z, z;
     num_neg := Z.opp;
     num_sub := Z.sub;
     num_mul := Z.mul;
     num_div := Z.div;
     darken_hex := λ x, pretty x |}.

Definition layer (addr : nat) (cached uses drag eff : bool) (method : string)
    (ps : list (Z * Z)) : Layer :=
  {| layer_addr := addr; usesMachine := uses; shouldCache := cached;
     dragging := drag; effect := eff; connectionMethod := method;
     autosize := false; startingWidth := 1; startingHeight := 1;
     offsetX := 0; offsetY := 0; rotation := 0;
     attrs := {| points := ps; bigint_option := None |} |}.

Definition square : list (Z * Z) := [(0, 0); (1, 0); (1, 1); (0, 1)].

(** A cacheable square with a BigInt among its options. *)
Definition seeded : Layer :=
  {| layer_addr := 3; usesMachine := false; shouldCache := true;
     dragging := false; effect := false; connectionMethod := "line";
     autosize := false; startingWidth := 1; startingHeight := 1;
     offsetX := 0; offsetY := 0; rotation := 0;
     attrs := {| points := square; bigint_option := Some 7 |} |}.

Definition machine10 : Machine := {| machine_addr := 100; settings := 10 |}.
Definition machine20 : Machine := {| machine_addr := 101; settings := 20 |}.

(** Two visible layers: a square, then a single point. *)
Definition drawing (method : string) (m : Machine) : State :=
  {| layers :=
       {| layers_addr := 200;
          byId := {[ "A" := layer 1 true false false false method square;
                     "B" := layer 2 true false false false "line" [(5, 5)] ]} |};
     machine := m;
     preview := Some {| sliderValue := 0 |} |}.

(** The module state at load time, with an empty cache. *)
Definition empty_cache : Cache := [].
Definition start : World := initial empty_cache.

Definition arr (a : nat) (l : list (Z * Z)) : Arr :=
  {| arr_addr := a; elems := l |}.

(** The literal the computed stage builds from a drawing. *)
Definition nested (method : string) (m : Machine) : State :=
  Build_State (layers (drawing method m)) m None.

(** The demo drawing with a third layer, [D], that is not visible. *)
Definition drawingWithHidden (m : Machine) : State :=
  {| layers :=
       {| layers_addr := 201;
          byId := {[ "A" := layer 1 true false false false "line" square;
                     "B" := layer 2 true false false false "line" [(5, 5)];
                     "D" := layer 4 true false false false "line" [(9, 9)] ]} |};
     machine := m;
     preview := Some {| sliderValue := 0 |} |}.

(** Stand-ins for the statistics and the track: integer square roots, one
    loop per point of the shape, the track enabled on layers that are not
    effects. *)
#[export] Instance measures : Measures :=
  {| vertex_x := fst;
     vertex_y := snd;
     victor := pair;
     num_add := Z.add;
     num_pow := Z.pow;
     num_sqrt := Z.sqrt;
     num_floor := λ z, z;
     numLoops := λ layer, Z.of_nat (length (points (attrs layer)));
     trackEnabled := λ layer, negb (effect layer);
     transformShape := λ layer p i _, (p.1 + offsetX layer + i, p.2 + offsetY layer) |}.

End Demo.

(** * Properties *)

Section Properties.
Context {D : Domain} {E : Externals}.

(** ** Running computations *)

Lemma run_bind {A B} (m : M A) (f : A → M B) (w : World) :
  (m ≫= f) w =
  match m w with
  | (Ret a, w') => f a w'
  | (Throw e, w') => (Throw e, w')
  | (OutOfFuel, w') => (OutOfFuel, w')
  | (Builtin key, w') => (Builtin key, w')
  end.
Proof. reflexivity. Qed.

Lemma run_bind_ret {A B} (m : M A) (f : A → M B) (w w' : World) (a : A) :
  m w = (Ret a, w') → (m ≫= f) w = f a w'.
Proof. intros H. rewrite run_bind, H. reflexivity. Qed.

Lemma run_ret {A} (a : A) (w : World) : (mret a : M A) w = (Ret a, w).
Proof. reflexivity. Qed.

(** ** Reading a plain object *)

Lemma property_own {A} (obj : gmap string A) (key : string) (a : A) :
  obj !! key = Some a → property obj key = Own a.
Proof. intros H. unfold property. by rewrite H. Qed.

Lemma property_Own {A} (obj : gmap string A) (key : string) (a : A) :
  property obj key = Own a ↔ obj !! key = Some a.
Proof.
  unfold property. destruct (obj !! key) as [a'|].
  - split; intros [= ->]; done.
  - destruct (inherited key); split; done.
Qed.

Lemma property_Undefined {A} (obj : gmap string A) (key : string) :
  property obj key = Undefined ↔ obj !! key = None ∧ inherited key = false.
Proof.
  unfold property. destruct (obj !! key) as [a|].
  - split; [done|]. by intros [? _].
  - destruct (inherited key); split; try done. by intros [_ ?].
Qed.

Lemma property_Inherited {A} (obj : gmap string A) (key key' : string) :
  property obj key = Inherited key' ↔
  obj !! key = None ∧ inherited key = true ∧ key' = key.
Proof.
  unfold property. destruct (obj !! key) as [a|].
  - split; [done|]. by intros [? _].
  - destruct (inherited key); split; try done.
    + by intros [= <-].
    + by intros (_ & _ & ->).
    + by intros (_ & ? & _).
Qed.

(** ** The raw stage *)

(** C5.  For a layer with [shouldCache = false] the raw stage returns the
    empty list when the layer is not dragged and has an active effect, and
    otherwise returns what one direct call of the shape generator returns;
    in both cases the cache is left as it was, and the result does not
    depend on it. *)
Theorem raw_uncached (layer : Layer) (machine : option Machine) (w : World) :
  shouldCache layer = false →
  let state := {| shape := layer; shape_machine := machine |} in
  let run := LayerVertices_result (Some layer) machine w in
  cache run.2 = cache w ∧
  if negb (dragging layer) && effect layer
  then (∃ a, run.1 = Ret {| arr_addr := a; elems := [] |}) ∧
       generated run.2 = generated w
  else (∃ a, run.1 = Ret {| arr_addr := a; elems := getVertices state |}) ∧
       generated run.2 = generated w ++ [state].
Proof.
  intros Hc. cbn. rewrite Hc. cbn.
  destruct (negb (dragging layer) && effect layer); cbn; eauto.
Qed.

(** C9, as the code has it: [getCacheKey] is not guarded.  When the
    snapshot of a cacheable layer cannot be serialized, the raw stage throws
    the serializer's error; nothing is generated, nothing is written to the
    console or the cache. *)
Theorem raw_unserializable (layer : Layer) (machine : option Machine)
    (w : World) :
  shouldCache layer = true →
  JSON_stringify {| shape := layer; shape_machine := machine |} = None →
  LayerVertices_result (Some layer) machine w = (Throw "TypeError", w).
Proof.
  intros Hc Hs. unfold LayerVertices_result, getCacheKey.
  rewrite Hc, Hs. reflexivity.
Qed.

(** ** The computed stage *)

Lemma nextLayerOf_Some (b : string) (layers : Layers) (B : Layer) :
  b ≠ "" → byId layers !! b = Some B → nextLayerOf (Some b) layers = Own B.
Proof.
  intros Hb HB. unfold nextLayerOf. rewrite bool_decide_eq_false_2 by done.
  by apply property_own.
Qed.

(** [nextLayerId && layers[nextLayerId]] is falsy when the id is null or
    empty, or when the layers have no property of that name, own or
    inherited. *)
Lemma nextLayerOf_Undefined (nextLayerId : option string) (layers : Layers) :
  nextLayerOf nextLayerId layers = Undefined ↔
  nextLayerId = None ∨ nextLayerId = Some "" ∨
  ∃ b, nextLayerId = Some b ∧ byId layers !! b = None ∧ inherited b = false.
Proof.
  unfold nextLayerOf. destruct nextLayerId as [b|].
  - case_bool_decide as Hb.
    + subst b. split; [by right; left|done].
    + rewrite property_Undefined. split.
      * intros [? ?]. right; right. by exists b.
      * intros [[=]|[[=]|(b' & [= <-] & ? & ?)]]; done.
  - split; [by left|done].
Qed.

(** C2.  For consecutive visible layers A then B, with B present, not
    dragged and with non-empty computed vertices, and A connected "along
    perimeter": before polishing, A's path is its transformed vertices
    followed by the perimeter point nearest to A's last vertex, the
    perimeter trace, the perimeter point nearest to B's first computed
    vertex, and that vertex. *)
Theorem stitched_along_perimeter (computedOf : string → State → M Arr)
    (layerId : string) (vertices : Arr) (layerIndex numLayers : Z)
    (allLayers : Layers) (m : Machine) (w : World) (A B : Layer) (b : string)
    (nextVertices : Arr) (end_ : Vertex) (rest : list Vertex) (w' : World) :
  layerIndex < numLayers - 1 →
  b ≠ "" → byId allLayers !! b = Some B →
  dragging B = false →
  computedOf b (Build_State allLayers m None) (logged layerId w)
    = (Ret nextVertices, w') →
  elems nextVertices = end_ :: rest →
  byId allLayers !! layerId = Some A →
  connectionMethod A = "along perimeter" →
  let startPerimeter := nearestPerimeterVertex m (last (elems vertices)) in
  let endPerimeter := nearestPerimeterVertex m (Some end_) in
  stitched computedOf layerId vertices layerIndex (Some b) numLayers
    allLayers m w
  = (Ret (elems vertices ++
          [startPerimeter] ++
          tracePerimeter m startPerimeter endPerimeter ++
          [endPerimeter] ++ [end_]), w').
Proof.
  intros Hi Hb HB Hd Hn Hv HA Hc. unfold stitched.
  rewrite run_bind. cbn [console_log modify].
  rewrite bool_decide_eq_true_2 by done.
  rewrite (nextLayerOf_Some b allLayers B) by done. rewrite Hd. cbn [negb].
  rewrite run_bind. fold (logged layerId w).
  rewrite Hn, Hv, (property_own _ _ _ HA).
  rewrite bool_decide_eq_true_2 by done. reflexivity.
Qed.

(** C3.  For consecutive visible layers A then B with A not connected
    "along perimeter": before polishing, A's path is its transformed
    vertices followed by exactly one vertex, B's first computed vertex, when
    B is present, not dragged and has computed vertices; nothing is appended
    when B's computed vertices are empty, when B does not exist (the code's
    [nextLayerId && layers[nextLayerId]] is falsy: no next id, or no
    property of that name in the layers, see [nextLayerOf_Undefined]), or
    when B is dragged. *)
Theorem stitched_direct (computedOf : string → State → M Arr)
    (layerId : string) (vertices : Arr) (layerIndex : Z)
    (nextLayerId : option string) (numLayers : Z) (allLayers : Layers)
    (m : Machine) (w : World) (A : Layer) :
  layerIndex < numLayers - 1 →
  byId allLayers !! layerId = Some A →
  connectionMethod A ≠ "along perimeter" →
  (∀ b B nextVertices w',
     nextLayerId = Some b → b ≠ "" → byId allLayers !! b = Some B →
     dragging B = false →
     computedOf b (Build_State allLayers m None) (logged layerId w)
       = (Ret nextVertices, w') →
     (∀ end_ rest, elems nextVertices = end_ :: rest →
        stitched computedOf layerId vertices layerIndex nextLayerId
          numLayers allLayers m w
        = (Ret (elems vertices ++ [end_]), w')) ∧
     (elems nextVertices = [] →
        stitched computedOf layerId vertices layerIndex nextLayerId
          numLayers allLayers m w
        = (Ret (elems vertices), w'))) ∧
  (nextLayerOf nextLayerId allLayers = Undefined →
     stitched computedOf layerId vertices layerIndex nextLayerId
       numLayers allLayers m w
     = (Ret (elems vertices), logged layerId w)) ∧
  (∀ B, nextLayerOf nextLayerId allLayers = Own B → dragging B = true →
     stitched computedOf layerId vertices layerIndex nextLayerId
       numLayers allLayers m w
     = (Ret (elems vertices), logged layerId w)).
Proof.
  intros Hi HA Hc. unfold stitched.
  rewrite run_bind. cbn [console_log modify].
  rewrite bool_decide_eq_true_2 by done. fold (logged layerId w).
  split; [|split].
  - intros b B nextVertices w' -> Hb HB Hd Hn.
    rewrite (nextLayerOf_Some b allLayers B) by done. rewrite Hd. cbn [negb].
    rewrite run_bind. rewrite Hn. split.
    + intros end_ rest ->. rewrite (property_own _ _ _ HA).
      rewrite bool_decide_eq_false_2 by done. reflexivity.
    + intros ->. reflexivity.
  - intros ->. reflexivity.
  - intros B -> Hd. rewrite Hd. cbn [negb].
    destruct nextLayerId; reflexivity.
Qed.

(** ** The preview stage *)

(** C10.  The preview of a layer is built from its transformed vertices
    when the layer is dragged and from its computed vertices otherwise (so
    the preview of a dragged layer has neither stitch nor polish); each
    vertex is un-offset by (offsetX, offsetY), rotated by the layer's
    rotation and moved by the Konva delta. *)
Theorem preview_source (layerId : string) (layers : Layers)
    (machine : Machine) (transformedVertices computedVertices : Arr)
    (layer : Layer) (w : World) :
  byId layers !! layerId = Some layer →
  let konvaScale := num_of_Z (if autosize layer then 5 else 1) in
  let half := num_div (num_sub konvaScale (num_of_Z 1)) (num_of_Z 2) in
  let konvaDeltaX := num_mul half (startingWidth layer) in
  let konvaDeltaY := num_mul half (startingHeight layer) in
  let place vertex :=
    offset
      (rotate (offset vertex (num_neg (offsetX layer)) (num_neg (offsetY layer)))
         (rotation layer))
      konvaDeltaX (num_neg konvaDeltaY) in
  ∃ a w',
    PreviewVertices_result layerId layers machine transformedVertices
      computedVertices w =
    (Ret {| arr_addr := a;
            elems := place <$> elems (if dragging layer
                                      then transformedVertices
                                      else computedVertices) |}, w').
Proof.
  intros Hl. cbn zeta. unfold PreviewVertices_result.
  rewrite (property_own _ _ _ Hl).
  destruct (autosize layer); cbn; eauto.
Qed.

(** ** The slider gradient *)

Lemma countdown_elem (start end_ i : Z) :
  i ∈ countdown start end_ ↔ start ≤ i ≤ end_.
Proof.
  unfold countdown. rewrite elem_of_reverse, elem_of_seqZ. lia.
Qed.

Lemma countdown_NoDup (start end_ : Z) : NoDup (countdown start end_).
Proof. unfold countdown. rewrite reverse_Permutation. apply NoDup_seqZ. Qed.

Lemma dom_fold_insert (f : Z → string) (l : list Z) (colors : gmap Z string) :
  dom (foldl (λ colors i, <[i := f i]> colors) colors l)
  = dom colors ∪ list_to_set l.
Proof.
  revert colors. induction l as [|i l IH]; intros colors; cbn.
  - set_solver.
  - rewrite IH, dom_insert_L. set_solver.
Qed.

(** C8, as the code has it: for a slider value that is not positive, the
    gradient of a layer whose offset is [start] and whose preview has [n]
    vertices has a colour at every index from [start] to [start + n], both
    included: [n + 1] keys. *)
Theorem slider_colors_keys (layerId : string) (vertices : list Vertex)
    (p : Preview) (layerVertices : Arr) (offsets : gmap string Z)
    (start : Z) (w : World) :
  (sliderValue p <= 0)%Q →
  offsets !! layerId = Some start →
  let end_ := start + Z.of_nat (length (elems layerVertices)) in
  ∃ colors,
    SliderColors_result layerId vertices (Some p) layerVertices offsets w
      = (Ret colors, w) ∧
    (∀ i, is_Some (colors !! i) ↔ start ≤ i ≤ end_) ∧
    size colors = S (length (elems layerVertices)).
Proof.
  intros Hv Hs end_. unfold SliderColors_result.
  apply Qle_bool_iff in Hv. rewrite Hv. cbn [negb].
  rewrite (property_own _ _ _ Hs). cbn.
  eexists. split; [reflexivity|]. fold end_. split.
  - intros i. rewrite <- elem_of_dom, dom_fold_insert, dom_empty_L.
    rewrite elem_of_union, elem_of_list_to_set, countdown_elem. set_solver.
  - rewrite <- size_dom, dom_fold_insert, dom_empty_L, (left_id_L ∅ (∪)).
    rewrite size_list_to_set by apply countdown_NoDup.
    unfold countdown. rewrite length_reverse, length_seqZ. lia.
Qed.

(** ** The offsets *)

Lemma run_mapM_cons {A B} (f : A → M B) (x : A) (l : list A) (w : World) :
  mapM f (x :: l) w =
  (y ← f x; k ← mapM f l; mret (y :: k)) w.
Proof. reflexivity. Qed.

Lemma offsets_forEach_spec (fuel : nat) (state : State) (ids : list string) :
  ∀ (offsets0 : gmap string Z) (offset0 : Z) (w w' : World)
    (perLayer : list Arr),
  mapM (λ id, callComputedVertices fuel id state) ids w = (Ret perLayer, w') →
  ∃ offsets,
    offsets_forEach fuel state ids offsets0 offset0 w = (Ret offsets, w') ∧
    (∀ id, id ∉ ids → offsets !! id = offsets0 !! id) ∧
    (∀ first rest, ids = first :: rest → first ∉ rest →
       offsets !! first = Some offset0) ∧
    (NoDup ids →
     ∀ i current next vertices,
       ids !! i = Some current → ids !! S i = Some next →
       perLayer !! i = Some vertices →
       ∃ o, offsets !! current = Some o ∧
            offsets !! next = Some (o + Z.of_nat (length (elems vertices)) + 1)).
Proof.
  induction ids as [|id ids IH]; intros offsets0 offset0 w w' perLayer Hrun.
  - cbn in Hrun. injection Hrun as <- <-. exists offsets0. cbn.
    split; [done|]. split; [done|]. split; [done|].
    intros _ i ? ? ? Hi. by rewrite lookup_nil in Hi.
  - rewrite run_mapM_cons, run_bind in Hrun.
    destruct (callComputedVertices fuel id state w) as [[v|e| |key] w1] eqn:Hv;
      [|done..].
    rewrite run_bind in Hrun.
    destruct (mapM (M:=M) _ ids w1) as [[vs|e| |key] w2] eqn:Hvs; [|done..].
    cbn in Hrun. injection Hrun as <- <-.
    destruct (IH (<[id := offset0]> offsets0)
                (offset0 + Z.of_nat (length (elems v)) + 1) w1 w2 vs Hvs)
      as (offsets & Hrun' & Hout & Hfirst & Hnext).
    exists offsets.
    assert (Hhead : id ∉ ids → offsets !! id = Some offset0).
    { intros Hid. rewrite (Hout id Hid). apply lookup_insert_eq. }
    split; [|split; [|split]].
    + cbn [offsets_forEach]. rewrite run_bind, Hv. exact Hrun'.
    + intros id' [Hne Hid']%not_elem_of_cons.
      rewrite (Hout id' Hid'). by apply lookup_insert_ne.
    + intros first rest [= <- <-]. exact Hhead.
    + intros [Hid Hnd]%NoDup_cons [|i] current next vertices Hc Hn Hp.
      * cbn in Hc, Hn, Hp. injection Hc as <-. injection Hp as <-.
        exists offset0. split; [by apply Hhead|].
        destruct ids as [|id' ids']; [done|]. cbn in Hn. injection Hn as ->.
        apply (Hfirst next ids'); [done|]. by apply NoDup_cons in Hnd as [? _].
      * cbn in Hc, Hn, Hp. by apply (Hnext Hnd i).
Qed.

(** C4.  In the offsets of a visible order (without repeated ids) the first
    visible layer has offset 0, and for consecutive visible layers
    [current], [next] the offset of [next] is the offset of [current] plus
    the number of [current]'s computed vertices plus 1. *)
Theorem offsets_consistent (fuel : nat) (state : State) (w w' : World)
    (perLayer : list Arr) :
  NoDup (getVisibleLayerIds state) →
  mapM (λ id, callComputedVertices fuel id state) (getVisibleLayerIds state) w
    = (Ret perLayer, w') →
  ∃ offsets,
    getVertexOffsets fuel state w = (Ret offsets, w') ∧
    (∀ first rest, getVisibleLayerIds state = first :: rest →
       offsets !! first = Some 0) ∧
    (∀ i current next vertices,
       getVisibleLayerIds state !! i = Some current →
       getVisibleLayerIds state !! S i = Some next →
       perLayer !! i = Some vertices →
       ∃ o, offsets !! current = Some o ∧
            offsets !! next = Some (o + Z.of_nat (length (elems vertices)) + 1)).
Proof.
  intros Hnd Hrun.
  destruct (offsets_forEach_spec fuel state _ ∅ 0 w w' perLayer Hrun)
    as (offsets & Hoff & _ & Hfirst & Hnext).
  exists offsets. split; [exact Hoff|]. split.
  - intros first rest Heq. apply (Hfirst first rest Heq).
    rewrite Heq in Hnd. by apply NoDup_cons in Hnd as [? _].
  - exact (Hnext Hnd).
Qed.

(** ** Termination of the computed stage *)

Lemma answers_ret {A} (a : A) : answers (mret a : M A).
Proof. intros w. done. Qed.

Lemma answers_throw {A} (e : string) : answers (throw e : M A).
Proof. intros w. done. Qed.

Lemma answers_builtin {A} (key : string) : answers (builtin key : M A).
Proof. intros w. done. Qed.

Lemma answers_gets {A} (f : World → A) : answers (gets f).
Proof. intros w. done. Qed.

Lemma answers_modify (f : World → World) : answers (modify f).
Proof. intros w. done. Qed.

Lemma answers_bind_ret {A B} (m : M A) (f : A → M B) :
  answers m → (∀ w a w', m w = (Ret a, w') → answers (f a)) →
  answers (m ≫= f).
Proof.
  intros Hm Hf w. rewrite run_bind. specialize (Hm w).
  destruct (m w) as [[a|e| |key] w'] eqn:Hmw; [|done..].
  by apply (Hf w a w').
Qed.

Lemma answers_bind {A B} (m : M A) (f : A → M B) :
  answers m → (∀ a, answers (f a)) → answers (m ≫= f).
Proof. intros Hm Hf. apply answers_bind_ret; auto. Qed.

Create HintDb answers.
#[local] Hint Resolve answers_ret answers_throw answers_builtin answers_gets
  answers_modify : answers.

Ltac solve_answers :=
  repeat first
    [ apply answers_bind; [|intros ?]
    | progress eauto with answers ].

Lemma answers_alloc : answers alloc.
Proof. unfold alloc. solve_answers. Qed.
#[local] Hint Resolve answers_alloc : answers.

Lemma answers_newArr (l : list Vertex) : answers (newArr l).
Proof. unfold newArr. solve_answers. Qed.
#[local] Hint Resolve answers_newArr : answers.

Lemma answers_memoized {A R} `{EqDecision A} (get : World → Memo A R)
    (set : Memo A R → World → World) (sel : nat) (args : A) (body : M R) :
  answers body → answers (memoized get set sel args body).
Proof.
  intros Hb. unfold memoized. apply answers_bind; [solve_answers|].
  intros memo. destruct (memo !! sel) as [[lastArgs lastResult]|].
  - case_bool_decide; solve_answers.
  - solve_answers.
Qed.

Lemma answers_getCachedSelector (fn : Maker) (layerId : string) :
  answers (make fn layerId) → answers (getCachedSelector fn layerId).
Proof.
  intros Hm. unfold getCachedSelector.
  apply answers_bind; [solve_answers|]. intros selectors.
  apply answers_bind; [destruct (selectors !! name fn); solve_answers|]. intros _.
  apply answers_bind; [solve_answers|]. intros selectors'.
  destruct (property _ layerId); solve_answers.
Qed.

Lemma answers_createSelector : answers createSelector.
Proof. apply answers_alloc. Qed.
#[local] Hint Resolve answers_createSelector : answers.

Lemma answers_leaf (fn : Maker) (layerId : string) :
  make fn layerId = createSelector → answers (getCachedSelector fn layerId).
Proof. intros H. apply answers_getCachedSelector. rewrite H. solve_answers. Qed.

Lemma answers_LayerVertices_maker (layerId : string) :
  answers (getCachedSelector makeGetLayerVertices layerId).
Proof.
  apply answers_getCachedSelector. cbn.
  repeat (apply answers_bind; [by apply answers_leaf|intros ?]). solve_answers.
Qed.

Lemma answers_Transformed_maker (layerId : string) :
  answers (getCachedSelector makeGetTransformedVertices layerId).
Proof.
  apply answers_getCachedSelector. cbn.
  apply answers_bind; [apply answers_LayerVertices_maker|intros ?].
  repeat (apply answers_bind; [by apply answers_leaf|intros ?]). solve_answers.
Qed.

Lemma answers_Computed_maker (layerId : string) :
  answers (getCachedSelector makeGetComputedVertices layerId).
Proof.
  apply answers_getCachedSelector. cbn.
  apply answers_bind; [apply answers_Transformed_maker|intros ?].
  repeat (apply answers_bind; [by apply answers_leaf|intros ?]). solve_answers.
Qed.

Lemma answers_callLayer (layerId : string) (state : State) :
  answers (callLayer layerId state).
Proof. unfold callLayer. apply answers_bind; [by apply answers_leaf|solve_answers]. Qed.

Lemma answers_callEffects (layerId : string) (state : State) :
  answers (callEffects layerId state).
Proof.
  unfold callEffects. apply answers_bind; [by apply answers_leaf|solve_answers].
Qed.

Lemma answers_callLayerIndex (layerId : string) (state : State) :
  answers (callLayerIndex layerId state).
Proof.
  unfold callLayerIndex. apply answers_bind; [by apply answers_leaf|solve_answers].
Qed.

Lemma answers_callNextLayerId (layerId : string) (state : State) :
  answers (callNextLayerId layerId state).
Proof.
  unfold callNextLayerId. apply answers_bind; [by apply answers_leaf|solve_answers].
Qed.

Lemma answers_callLayerMachine (layerId : string) (state : State) :
  answers (callLayerMachine layerId state).
Proof.
  unfold callLayerMachine. apply answers_bind; [by apply answers_leaf|].
  intros sel. apply answers_memoized. unfold LayerMachine_result.
  destruct (property _ layerId); solve_answers.
Qed.

Lemma answers_LayerVertices_result (layer : option Layer)
    (machine : option Machine) :
  answers (LayerVertices_result layer machine).
Proof.
  unfold LayerVertices_result. destruct layer as [layer|]; [|solve_answers].
  destruct (shouldCache layer).
  - apply answers_bind.
    { unfold getCacheKey. destruct (JSON_stringify _); solve_answers. }
    intros key. apply answers_bind; [intros w; unfold cacheGet; by destruct cache_get|].
    intros [v|]; [solve_answers|].
    unfold generate, cacheSet. solve_answers.
  - cbn. destruct (_ && _); [solve_answers|]. unfold generate. solve_answers.
Qed.

Lemma answers_callLayerVertices (layerId : string) (state : State) :
  answers (callLayerVertices layerId state).
Proof.
  unfold callLayerVertices.
  apply answers_bind; [apply answers_LayerVertices_maker|intros sel].
  apply answers_bind; [apply answers_callLayer|intros layer].
  apply answers_bind; [apply answers_callLayerMachine|intros machine].
  apply answers_memoized, answers_LayerVertices_result.
Qed.

Lemma answers_callTransformedVertices (layerId : string) (state : State) :
  answers (callTransformedVertices layerId state).
Proof.
  unfold callTransformedVertices.
  apply answers_bind; [apply answers_Transformed_maker|intros sel].
  apply answers_bind; [apply answers_callLayerVertices|intros vertices].
  apply answers_bind; [apply answers_callLayer|intros layer].
  apply answers_bind; [apply answers_callEffects|intros effects].
  apply answers_memoized. unfold TransformedVertices_result. solve_answers.
Qed.

(** The result function answers when the selector of the next layer does,
    where it is called. *)
Lemma answers_stitched (computedOf : string → State → M Arr)
    (layerId : string) (vertices : Arr) (layerIndex : Z)
    (nextLayerId : option string) (numLayers : Z) (allLayers : Layers)
    (m : Machine) :
  (∀ next, layerIndex < numLayers - 1 → nextLayerId = Some next →
     answers (computedOf next (Build_State allLayers m None))) →
  answers (stitched computedOf layerId vertices layerIndex nextLayerId
             numLayers allLayers m).
Proof.
  intros Hnext. unfold stitched.
  apply answers_bind; [unfold console_log; solve_answers|intros _].
  case_bool_decide as Hi; [|solve_answers].
  assert (Hbridge : ∀ next, nextLayerId = Some next →
    answers
      (nextVertices ← computedOf next (Build_State allLayers m None);
       match elems nextVertices with
       | next0 :: _ =>
           match property (byId allLayers) layerId with
           | Undefined => throw "TypeError"
           | Own layer =>
               if bool_decide (connectionMethod layer = "along perimeter")
               then
                 mret (elems vertices ++
                       [nearestPerimeterVertex m (last (elems vertices))] ++
                       tracePerimeter m
                         (nearestPerimeterVertex m (last (elems vertices)))
                         (nearestPerimeterVertex m (Some next0)) ++
                       [nearestPerimeterVertex m (Some next0); next0])
               else mret (elems vertices ++ [next0])
           | Inherited _ => mret (elems vertices ++ [next0])
           end
       | [] => mret (elems vertices)
       end)).
  { intros next Hn.
    apply answers_bind; [by apply Hnext|intros nextVertices].
    destruct (elems nextVertices); [solve_answers|].
    destruct (property (byId allLayers) layerId); [|solve_answers..].
    case_bool_decide; solve_answers. }
  destruct (nextLayerOf nextLayerId allLayers) as [nextLayer|key|];
    [| |solve_answers];
    (destruct nextLayerId as [next|]; [|solve_answers]).
  - destruct (negb (dragging nextLayer)); [|solve_answers].
    by apply Hbridge.
  - by apply Hbridge.
Qed.

Lemma callLayerIndex_ret (layerId : string) (state : State) (w w' : World)
    (i : Z) :
  callLayerIndex layerId state w = (Ret i, w') →
  i = getLayerIndex layerId state.
Proof.
  unfold callLayerIndex. rewrite run_bind.
  destruct (getCachedSelector _ _ w) as [[?|?| |?] ?]; cbn; intros [=]; done.
Qed.

Lemma callNextLayerId_ret (layerId : string) (state : State) (w w' : World)
    (next : option string) :
  callNextLayerId layerId state w = (Ret next, w') →
  next = getNextLayerId layerId state.
Proof.
  unfold callNextLayerId. rewrite run_bind.
  destruct (getCachedSelector _ _ w) as [[?|?| |?] ?]; cbn; intros [=]; done.
Qed.

Section Acyclic.
Variable state : State.

(** The literal handed to the next layer's selector shows the collaborators
    the same layers and the same visible order as the state it was built
    from. *)
Hypothesis nested_layers :
  getLayersById (nestedState state) = getLayersById state.
Hypothesis nested_count :
  getNumVisibleLayers (nestedState state) = getNumVisibleLayers state.
Hypothesis nested_index : ∀ id,
  getLayerIndex id (nestedState state) = getLayerIndex id state.
Hypothesis nested_next : ∀ id,
  getNextLayerId id (nestedState state) = getNextLayerId id state.

(** Each layer's next layer is strictly later in the visible order. *)
Hypothesis next_later : ∀ id next,
  getNextLayerId id state = Some next →
  getLayerIndex id state < getLayerIndex next state.

Lemma nested_nested : nestedState (nestedState state) = nestedState state.
Proof. unfold nestedState at 1. rewrite nested_layers. reflexivity. Qed.

Lemma computed_answers_fuel (fuel : nat) :
  ∀ (t : State) (layerId : string),
  t = state ∨ t = nestedState state →
  (1 ≤ fuel)%nat →
  getNumVisibleLayers state - getLayerIndex layerId state ≤ Z.of_nat fuel →
  answers (callComputedVertices fuel layerId t).
Proof.
  induction fuel as [|fuel IH]; intros t layerId Ht Hpos Hfuel; [lia|].
  assert (Hnested : nestedState t = nestedState state).
  { destruct Ht as [->| ->]; [done|apply nested_nested]. }
  assert (Hidx : ∀ id, getLayerIndex id t = getLayerIndex id state).
  { destruct Ht as [->| ->]; [done|apply nested_index]. }
  assert (Hnum : getNumVisibleLayers t = getNumVisibleLayers state).
  { destruct Ht as [->| ->]; [done|apply nested_count]. }
  assert (Hnxt : ∀ id, getNextLayerId id t = getNextLayerId id state).
  { destruct Ht as [->| ->]; [done|apply nested_next]. }
  cbn [callComputedVertices].
  apply answers_bind; [apply answers_Computed_maker|intros sel].
  apply answers_bind; [apply answers_callTransformedVertices|intros vertices].
  apply answers_bind_ret; [apply answers_callLayerIndex|].
  intros w1 layerIndex w2 ->%callLayerIndex_ret.
  apply answers_bind_ret; [apply answers_callNextLayerId|].
  intros w3 nextLayerId w4 ->%callNextLayerId_ret.
  apply answers_memoized. unfold ComputedVertices_result.
  apply answers_bind; [|solve_answers].
  apply answers_stitched. intros next Hi Hn.
  rewrite Hidx, Hnum in Hi. rewrite Hnxt in Hn.
  apply next_later in Hn.
  change (Build_State (getLayersById t) (getMachine t) None)
    with (nestedState t).
  rewrite Hnested. apply IH; [by right|lia..].
Qed.

(** C7.  When each layer's next layer is strictly later in the visible
    order, evaluating the computed stage of a visible layer terminates, and
    the nesting of the calls to the next layer's selector is at most the
    number of visible layers deep: with that budget the call returns or
    throws (or goes on with a built-in, where an id names a member of
    [Object.prototype]); it never exhausts the budget. *)
Theorem computed_terminates (layerId : string) (w : World) :
  0 ≤ getLayerIndex layerId state < getNumVisibleLayers state →
  let depth := Z.to_nat (getNumVisibleLayers state) in
  ∃ outcome w',
    callComputedVertices depth layerId state w = (outcome, w') ∧
    outcome ≠ OutOfFuel.
Proof.
  intros Hi depth.
  destruct (callComputedVertices depth layerId state w) as [o w'] eqn:Hrun.
  exists o, w'. split; [done|].
  change o with (o, w').1. rewrite <- Hrun.
  apply computed_answers_fuel; [by left|lia..].
Qed.

End Acyclic.

(** ** The registry *)

Lemma selectorAt_withName (fn : Maker) (w : World) (k i : string) :
  selectorAt (withName fn w) k i = selectorAt w k i.
Proof.
  unfold withName, selectorAt.
  destruct (cachedSelectors w !! name fn) eqn:Hn; [done|]. cbn.
  destruct (decide (k = name fn)) as [->|Hk].
  - rewrite lookup_total_insert_eq, lookup_total_alt, Hn. done.
  - by rewrite lookup_total_insert_ne.
Qed.

Lemma withName_registered (fn : Maker) (w : World) (i : string) (n : nat) :
  selectorAt w (name fn) i = Some n → withName fn w = w.
Proof.
  unfold withName, selectorAt. rewrite lookup_total_alt.
  destruct (cachedSelectors w !! name fn); [done|]. cbn.
  by rewrite lookup_empty.
Qed.

Lemma selectorAt_stored (fn : Maker) (layerId : string) (n : nat) (w : World)
    (k i : string) :
  selectorAt (stored fn layerId n w) k i =
  if decide (k = name fn ∧ i = layerId) then Some n else selectorAt w k i.
Proof.
  unfold stored, selectorAt. cbn.
  destruct (decide (k = name fn)) as [->|Hk].
  - rewrite lookup_total_insert_eq.
    destruct (decide (i = layerId)) as [->|Hi].
    + rewrite lookup_insert_eq. by rewrite decide_True.
    + rewrite lookup_insert_ne by done. rewrite decide_False; [done|tauto].
  - rewrite lookup_total_insert_ne by done. rewrite decide_False; [done|tauto].
Qed.

(** One call of [getCachedSelector], by what the registry holds. *)
Lemma getCachedSelector_run (fn : Maker) (layerId : string) (w : World) :
  getCachedSelector fn layerId w =
  match selectorAt w (name fn) layerId with
  | Some n => (Ret n, withName fn w)
  | None =>
      if inherited layerId then (Builtin layerId, withName fn w)
      else
        match make fn layerId (withName fn w) with
        | (Ret n, w') => (Ret n, stored fn layerId n w')
        | (Throw e, w') => (Throw e, w')
        | (OutOfFuel, w') => (OutOfFuel, w')
        | (Builtin key, w') => (Builtin key, w')
        end
  end.
Proof.
  unfold getCachedSelector. rewrite run_bind. cbn [gets].
  rewrite run_bind.
  assert ((if cachedSelectors w !! name fn is None
           then modify (λ w0, set_cachedSelectors
                                (<[name fn := ∅]> (cachedSelectors w0)) w0)
           else mret ()) w = (Ret (), withName fn w)) as ->.
  { unfold withName. by destruct (cachedSelectors w !! name fn). }
  rewrite run_bind. cbn [gets].
  rewrite <- (selectorAt_withName fn w (name fn) layerId).
  unfold selectorAt at 1, property.
  destruct ((cachedSelectors (withName fn w) !!! name fn) !! layerId); [done|].
  destruct (inherited layerId); [done|].
  rewrite run_bind.
  by destruct (make fn layerId (withName fn w)) as [[?|?| |?] ?].
Qed.

(** For a layer id that names a member of [Object.prototype] and has no
    selector of its own in the registry, the lookup calls no maker and
    hands out that member, for every maker. *)
Lemma getCachedSelector_inherited (fn : Maker) (layerId : string)
    (w : World) :
  inherited layerId = true →
  selectorAt w (name fn) layerId = None →
  getCachedSelector fn layerId w = (Builtin layerId, withName fn w).
Proof. intros Hi Hs. by rewrite getCachedSelector_run, Hs, Hi. Qed.

Lemma getCachedSelector_registered (fn : Maker) (layerId : string)
    (w : World) (n : nat) :
  selectorAt w (name fn) layerId = Some n →
  getCachedSelector fn layerId w = (Ret n, w).
Proof.
  intros H. rewrite getCachedSelector_run, H.
  by rewrite (withName_registered fn w layerId n).
Qed.

Lemma getCachedSelector_result (fn : Maker) (layerId : string)
    (w w' : World) (n : nat) :
  getCachedSelector fn layerId w = (Ret n, w') →
  selectorAt w' (name fn) layerId = Some n.
Proof.
  rewrite getCachedSelector_run.
  destruct (selectorAt w (name fn) layerId) as [n'|] eqn:Hs.
  - intros [= <- <-]. by rewrite selectorAt_withName.
  - destruct (inherited layerId); [done|].
    destruct (make fn layerId (withName fn w)) as [[?|?| |?] ?]; intros [= <- <-].
    rewrite selectorAt_stored. by rewrite decide_True.
Qed.

Section Steps.
Context (R : relation World) `{!PreOrder R}.

Lemma steps_ret {A} (a : A) : steps R (mret a : M A).
Proof. intros w. cbn. reflexivity. Qed.

Lemma steps_throw {A} (e : string) : steps R (throw e : M A).
Proof. intros w. cbn. reflexivity. Qed.

Lemma steps_outOfFuel {A} : steps R (outOfFuel : M A).
Proof. intros w. cbn. reflexivity. Qed.

Lemma steps_builtin {A} (key : string) : steps R (builtin key : M A).
Proof. intros w. cbn. reflexivity. Qed.

Lemma steps_gets {A} (f : World → A) : steps R (gets f).
Proof. intros w. cbn. reflexivity. Qed.

Lemma steps_modify (g : World → World) :
  (∀ w, R w (g w)) → steps R (modify g).
Proof. intros Hg w. apply Hg. Qed.

Lemma steps_bind {A B} (m : M A) (f : A → M B) :
  steps R m → (∀ a, steps R (f a)) → steps R (m ≫= f).
Proof.
  intros Hm Hf w. rewrite run_bind. specialize (Hm w).
  destruct (m w) as [[a|e| |?] w']; cbn in *; [|done..].
  etrans; [exact Hm|apply Hf].
Qed.

Lemma steps_mapM {A B} (f : A → M B) (l : list A) :
  (∀ a, steps R (f a)) → steps R (mapM f l).
Proof.
  intros Hf. induction l as [|a l IH].
  - apply steps_ret.
  - apply steps_bind; [apply Hf|]. intros b.
    apply steps_bind; [apply IH|]. intros k. apply steps_ret.
Qed.

End Steps.

#[local] Instance persists_preorder : PreOrder persists.
Proof.
  split; [by intros w k i n|].
  intros w1 w2 w3 H12 H23 k i n H. by apply H23, H12.
Qed.

#[local] Instance touches_preorder (names : list string) :
  PreOrder (touches names).
Proof.
  split; [by intros w k i|].
  intros w1 w2 w3 H12 H23 k i Hk. by rewrite H23, H12.
Qed.

#[local] Instance grows_preorder : PreOrder grows.
Proof.
  split; [by split|].
  intros w1 w2 w3 [Hc12 Hp12] [Hc23 Hp23]. split; [tauto|by etrans].
Qed.

#[local] Instance rawUntouched_preorder : PreOrder rawUntouched.
Proof.
  split; [by repeat split|].
  intros w1 w2 w3 (?&?&?) (?&?&?). repeat split; congruence.
Qed.

Lemma touches_mono (names names' : list string) (w w' : World) :
  names ⊆ names' → touches names w w' → touches names' w w'.
Proof. intros Hsub H k i Hk. apply H. intros Hin. by apply Hk, Hsub. Qed.

Lemma steps_touches_mono (names names' : list string) {A} (m : M A) :
  names ⊆ names' → steps (touches names) m → steps (touches names') m.
Proof. intros Hsub H w. by eapply touches_mono. Qed.

(** Consistency reads the registry, the history, the allocator and the memo
    of the machine selectors only. *)
Lemma consistent_same (w w' : World) :
  (∀ k i, selectorAt w' k i = selectorAt w k i) →
  created w' = created w →
  (next_addr w ≤ next_addr w')%nat →
  memoLayerMachine w' = memoLayerMachine w →
  consistent w → consistent w'.
Proof.
  intros Hs Hc Hn Hm [H1 Ho H2 H3 H4]. split.
  - intros k i n. rewrite Hs, Hc. apply H1.
  - intros k i n. rewrite Hs. apply Ho.
  - intros k i n. rewrite Hc. intros H%H2. lia.
  - by rewrite Hc.
  - intros n ls m r. rewrite Hm. intros (i & Hi & Hr)%H4.
    exists i. by rewrite Hs.
Qed.

Lemma grows_same (w w' : World) :
  (∀ k i, selectorAt w' k i = selectorAt w k i) →
  created w' = created w →
  (next_addr w ≤ next_addr w')%nat →
  memoLayerMachine w' = memoLayerMachine w →
  grows w w'.
Proof.
  intros Hs Hc Hn Hm. split; [by apply consistent_same|].
  intros k i n. by rewrite Hs.
Qed.

Lemma grows_withName (fn : Maker) (w : World) : grows w (withName fn w).
Proof.
  apply grows_same; [apply selectorAt_withName|..];
    unfold withName; by destruct (cachedSelectors w !! name fn).
Qed.

Lemma alloc_run (w : World) :
  alloc w = (Ret (next_addr w), set_next_addr (S (next_addr w)) w).
Proof. reflexivity. Qed.

Lemma steps_alloc_grows : steps grows alloc.
Proof. intros w. rewrite alloc_run. apply grows_same; cbn; done || lia. Qed.

Lemma steps_alloc_touches (names : list string) : steps (touches names) alloc.
Proof. intros w. rewrite alloc_run. by intros k i _. Qed.

Lemma steps_alloc_rawUntouched : steps rawUntouched alloc.
Proof. intros w. rewrite alloc_run. by repeat split. Qed.

(** Registering a selector at a fresh address, where none was registered. *)
Lemma grows_stored (fn : Maker) (layerId : string) (w : World) :
  inherited layerId = false →
  selectorAt w (name fn) layerId = None →
  grows w (stored fn layerId (next_addr w) (set_next_addr (S (next_addr w)) w)).
Proof.
  intros Hown Hnone.
  assert (Hsel : ∀ k i,
    selectorAt (stored fn layerId (next_addr w)
                  (set_next_addr (S (next_addr w)) w)) k i
    = if decide (k = name fn ∧ i = layerId) then Some (next_addr w)
      else selectorAt w k i).
  { intros k i. by rewrite selectorAt_stored. }
  assert (Hp : persists w (stored fn layerId (next_addr w)
                             (set_next_addr (S (next_addr w)) w))).
  { intros k i n Hn. rewrite Hsel. case_decide as Hk; [|done].
    destruct Hk as [-> ->]. congruence. }
  split; [|exact Hp]. intros [H1 Ho H2 H3 H4]. split.
  - intros k i n. rewrite Hsel. cbn [stored created set_created].
    rewrite elem_of_app, list_elem_of_singleton, <- H1.
    case_decide as Hk.
    + destruct Hk as [-> ->]. rewrite Hnone. split.
      * intros [= <-]. by right.
      * intros [?|[= <-]]; done.
    + split; [by left|]. intros [?|[= -> -> ->]]; [done|tauto].
  - intros k i n. rewrite Hsel. case_decide as Hk; [|apply Ho].
    by destruct Hk as [_ ->].
  - intros k i n. cbn [stored created set_created next_addr set_next_addr
                        set_cachedSelectors].
    rewrite elem_of_app, list_elem_of_singleton.
    intros [H%H2|[= -> -> ->]]; lia.
  - cbn [stored created set_created]. rewrite fmap_app. cbn.
    apply NoDup_app. split; [done|]. split; [|apply NoDup_singleton].
    intros n ((k & n') & -> & Hin)%list_elem_of_fmap.
    destruct k as [k i]. apply H2 in Hin. cbn.
    rewrite list_elem_of_singleton. lia.
  - intros n ls m r Hm. destruct (H4 n ls m r Hm) as (i & Hi & Hr).
    exists i. split; [by apply Hp|done].
Qed.

Lemma getCachedSelector_grows (fn : Maker) (layerId : string)
    (deps : M unit) (names : list string) :
  (∀ w, make fn layerId w = (deps ≫= λ _, createSelector) w) →
  steps grows deps → steps (touches names) deps → name fn ∉ names →
  steps grows (getCachedSelector fn layerId).
Proof.
  intros Hmake Hg Ht Hname w. rewrite getCachedSelector_run.
  destruct (selectorAt w (name fn) layerId) as [n|] eqn:Hs; cbn.
  { apply grows_withName. }
  destruct (inherited layerId) eqn:Hown; cbn.
  { apply grows_withName. }
  rewrite Hmake, run_bind.
  pose proof (Hg (withName fn w)) as Hg'.
  pose proof (Ht (withName fn w) (name fn) layerId Hname) as Ht'.
  rewrite selectorAt_withName, Hs in Ht'.
  destruct (deps (withName fn w)) as [[[]|e| |key] w2]; cbn in *.
  - unfold createSelector. rewrite alloc_run.
    etrans; [apply grows_withName|]. etrans; [exact Hg'|].
    by apply grows_stored.
  - etrans; [apply grows_withName|exact Hg'].
  - etrans; [apply grows_withName|exact Hg'].
  - etrans; [apply grows_withName|exact Hg'].
Qed.

Lemma getCachedSelector_touches (fn : Maker) (layerId : string)
    (names : list string) :
  steps (touches names) (make fn layerId) → name fn ∈ names →
  steps (touches names) (getCachedSelector fn layerId).
Proof.
  intros Hm Hname w. rewrite getCachedSelector_run.
  assert (Hw : touches names w (withName fn w)).
  { intros k i _. apply selectorAt_withName. }
  destruct (selectorAt w (name fn) layerId) as [n|] eqn:Hs; cbn; [done|].
  destruct (inherited layerId); cbn; [done|].
  specialize (Hm (withName fn w)).
  destruct (make fn layerId (withName fn w)) as [[n|e| |?] w2]; cbn in *.
  - etrans; [exact Hw|]. etrans; [exact Hm|].
    intros k i Hk. rewrite selectorAt_stored, decide_False; [done|].
    intros [-> _]. done.
  - by etrans.
  - by etrans.
  - by etrans.
Qed.

Lemma getCachedSelector_rawUntouched (fn : Maker) (layerId : string) :
  steps rawUntouched (make fn layerId) →
  steps rawUntouched (getCachedSelector fn layerId).
Proof.
  intros Hm w. rewrite getCachedSelector_run.
  assert (Hw : rawUntouched w (withName fn w)).
  { unfold withName. destruct (cachedSelectors w !! name fn); by repeat split. }
  destruct (selectorAt w (name fn) layerId) as [n|] eqn:Hs; cbn; [done|].
  destruct (inherited layerId); cbn; [done|].
  specialize (Hm (withName fn w)).
  destruct (make fn layerId (withName fn w)) as [[n|e| |?] w2]; cbn in *.
  - etrans; [exact Hw|]. etrans; [exact Hm|]. by repeat split.
  - by etrans.
  - by etrans.
  - by etrans.
Qed.

Lemma run_bind_assoc {A B C} (m : M A) (f : A → M B) (g : B → M C)
    (w : World) :
  ((m ≫= f) ≫= g) w = (m ≫= λ a, f a ≫= g) w.
Proof. rewrite !run_bind. by destruct (m w) as [[?|?| |?] ?]. Qed.

Lemma run_bind_ext {A B} (m : M A) (f g : A → M B) (w : World) :
  (∀ a w', f a w' = g a w') → (m ≫= f) w = (m ≫= g) w.
Proof. intros H. rewrite !run_bind. by destruct (m w) as [[?|?| |?] ?]. Qed.

Lemma registering_leaf (k : Kind) (layerId : string) :
  make (maker k) layerId = createSelector →
  registers k = [name (maker k)] →
  registering k layerId.
Proof.
  intros Hmake Hnames. split; [|split].
  - apply (getCachedSelector_grows _ _ (mret tt) []).
    + intros w. by rewrite Hmake.
    + apply steps_ret; apply _.
    + apply steps_ret; apply _.
    + apply not_elem_of_nil.
  - apply getCachedSelector_touches.
    + rewrite Hmake. apply steps_alloc_touches.
    + rewrite Hnames. apply list_elem_of_here.
  - apply getCachedSelector_rawUntouched. rewrite Hmake.
    apply steps_alloc_rawUntouched.
Qed.

Lemma registering_Layer i : registering KLayer i.
Proof. by apply registering_leaf. Qed.
Lemma registering_LayerIndex i : registering KLayerIndex i.
Proof. by apply registering_leaf. Qed.
Lemma registering_NextLayerId i : registering KNextLayerId i.
Proof. by apply registering_leaf. Qed.
Lemma registering_Effects i : registering KEffects i.
Proof. by apply registering_leaf. Qed.
Lemma registering_LayerMachine i : registering KLayerMachine i.
Proof. by apply registering_leaf. Qed.

(** A maker with dependencies: the dependencies are resolved by [deps]. *)
Lemma registering_node (k : Kind) (layerId : string) (deps : M unit) :
  (∀ w, make (maker k) layerId w = (deps ≫= λ _, createSelector) w) →
  steps grows deps →
  steps (touches (tail (registers k))) deps →
  steps rawUntouched deps →
  name (maker k) ∉ tail (registers k) →
  head (registers k) = Some (name (maker k)) →
  registering k layerId.
Proof.
  intros Hmake Hg Ht Hr Hnot Hhead.
  assert (Hsub : tail (registers k) ⊆ registers k).
  { destruct (registers k); [done|]. cbn. set_solver. }
  split; [|split].
  - by apply (getCachedSelector_grows _ _ deps (tail (registers k))).
  - apply getCachedSelector_touches.
    + intros w. rewrite Hmake. revert w.
      apply steps_bind; [apply _|..].
      * by apply (steps_touches_mono (tail (registers k))).
      * intros _. apply steps_alloc_touches.
    + destruct (registers k); [done|]. injection Hhead as ->.
      apply list_elem_of_here.
  - apply getCachedSelector_rawUntouched. intros w. rewrite Hmake. revert w.
    apply steps_bind; [apply _|done|]. intros _. apply steps_alloc_rawUntouched.
Qed.

Lemma registering_LayerVertices i : registering KLayerVertices i.
Proof.
  pose proof (registering_Layer i) as (Hg0&Ht0&Hr0).
  pose proof (registering_LayerMachine i) as (Hg1&Ht1&Hr1).
  apply (registering_node _ _
           (getCachedSelector makeGetLayer i;;
            getCachedSelector makeGetLayerMachine i;; mret tt)).
  - intros w. cbn [maker make makeGetLayerVertices].
    rewrite (run_bind_assoc _ _ _ w). apply run_bind_ext. intros _ w1.
    rewrite (run_bind_assoc _ _ _ w1). by apply run_bind_ext.
  - apply steps_bind; [apply _|exact Hg0|intros _].
    apply steps_bind; [apply _|exact Hg1|intros _].
    apply steps_ret, _.
  - apply steps_bind; [apply _| |intros _].
    { eapply steps_touches_mono; [|exact Ht0]. compute_done. }
    apply steps_bind; [apply _| |intros _].
    { eapply steps_touches_mono; [|exact Ht1]. compute_done. }
    apply steps_ret, _.
  - apply steps_bind; [apply _|exact Hr0|intros _].
    apply steps_bind; [apply _|exact Hr1|intros _].
    apply steps_ret, _.
  - compute_done.
  - done.
Qed.

Lemma registering_TransformedVertices i : registering KTransformedVertices i.
Proof.
  pose proof (registering_LayerVertices i) as (Hg0&Ht0&Hr0).
  pose proof (registering_Layer i) as (Hg1&Ht1&Hr1).
  pose proof (registering_Effects i) as (Hg2&Ht2&Hr2).
  apply (registering_node _ _
           (getCachedSelector makeGetLayerVertices i;;
            getCachedSelector makeGetLayer i;;
            getCachedSelector makeGetEffects i;; mret tt)).
  - intros w. cbn [maker make makeGetTransformedVertices].
    rewrite (run_bind_assoc _ _ _ w). apply run_bind_ext. intros _ w1.
    rewrite (run_bind_assoc _ _ _ w1). apply run_bind_ext. intros _ w2.
    rewrite (run_bind_assoc _ _ _ w2). by apply run_bind_ext.
  - apply steps_bind; [apply _|exact Hg0|intros _].
    apply steps_bind; [apply _|exact Hg1|intros _].
    apply steps_bind; [apply _|exact Hg2|intros _].
    apply steps_ret, _.
  - apply steps_bind; [apply _| |intros _].
    { eapply steps_touches_mono; [|exact Ht0]. compute_done. }
    apply steps_bind; [apply _| |intros _].
    { eapply steps_touches_mono; [|exact Ht1]. compute_done. }
    apply steps_bind; [apply _| |intros _].
    { eapply steps_touches_mono; [|exact Ht2]. compute_done. }
    apply steps_ret, _.
  - apply steps_bind; [apply _|exact Hr0|intros _].
    apply steps_bind; [apply _|exact Hr1|intros _].
    apply steps_bind; [apply _|exact Hr2|intros _].
    apply steps_ret, _.
  - compute_done.
  - done.
Qed.

Lemma registering_ComputedVertices i : registering KComputedVertices i.
Proof.
  pose proof (registering_TransformedVertices i) as (Hg0&Ht0&Hr0).
  pose proof (registering_LayerIndex i) as (Hg1&Ht1&Hr1).
  pose proof (registering_NextLayerId i) as (Hg2&Ht2&Hr2).
  apply (registering_node _ _
           (getCachedSelector makeGetTransformedVertices i;;
            getCachedSelector makeGetLayerIndex i;;
            getCachedSelector makeGetNextLayerId i;; mret tt)).
  - intros w. cbn [maker make makeGetComputedVertices].
    rewrite (run_bind_assoc _ _ _ w). apply run_bind_ext. intros _ w1.
    rewrite (run_bind_assoc _ _ _ w1). apply run_bind_ext. intros _ w2.
    rewrite (run_bind_assoc _ _ _ w2). by apply run_bind_ext.
  - apply steps_bind; [apply _|exact Hg0|intros _].
    apply steps_bind; [apply _|exact Hg1|intros _].
    apply steps_bind; [apply _|exact Hg2|intros _].
    apply steps_ret, _.
  - apply steps_bind; [apply _| |intros _].
    { eapply steps_touches_mono; [|exact Ht0]. compute_done. }
    apply steps_bind; [apply _| |intros _].
    { eapply steps_touches_mono; [|exact Ht1]. compute_done. }
    apply steps_bind; [apply _| |intros _].
    { eapply steps_touches_mono; [|exact Ht2]. compute_done. }
    apply steps_ret, _.
  - apply steps_bind; [apply _|exact Hr0|intros _].
    apply steps_bind; [apply _|exact Hr1|intros _].
    apply steps_bind; [apply _|exact Hr2|intros _].
    apply steps_ret, _.
  - compute_done.
  - done.
Qed.

Lemma registering_PreviewVertices i : registering KPreviewVertices i.
Proof.
  pose proof (registering_TransformedVertices i) as (Hg0&Ht0&Hr0).
  pose proof (registering_ComputedVertices i) as (Hg1&Ht1&Hr1).
  apply (registering_node _ _
           (getCachedSelector makeGetTransformedVertices i;;
            getCachedSelector makeGetComputedVertices i;; mret tt)).
  - intros w. cbn [maker make makeGetPreviewVertices].
    rewrite (run_bind_assoc _ _ _ w). apply run_bind_ext. intros _ w1.
    rewrite (run_bind_assoc _ _ _ w1). by apply run_bind_ext.
  - apply steps_bind; [apply _|exact Hg0|intros _].
    apply steps_bind; [apply _|exact Hg1|intros _].
    apply steps_ret, _.
  - apply steps_bind; [apply _| |intros _].
    { eapply steps_touches_mono; [|exact Ht0]. compute_done. }
    apply steps_bind; [apply _| |intros _].
    { eapply steps_touches_mono; [|exact Ht1]. compute_done. }
    apply steps_ret, _.
  - apply steps_bind; [apply _|exact Hr0|intros _].
    apply steps_bind; [apply _|exact Hr1|intros _].
    apply steps_ret, _.
  - compute_done.
  - done.
Qed.

Lemma registering_all (k : Kind) (layerId : string) : registering k layerId.
Proof.
  destruct k;
    auto using registering_Layer, registering_LayerIndex,
      registering_NextLayerId, registering_Effects, registering_LayerMachine,
      registering_LayerVertices, registering_TransformedVertices,
      registering_ComputedVertices, registering_PreviewVertices.
Qed.

(** ** Every request lets the module state grow *)

Lemma memoized_run {A R} `{EqDecision A} (get : World → Memo A R)
    (set : Memo A R → World → World) (sel : nat) (args : A) (body : M R)
    (w : World) :
  memoized get set sel args body w =
  let recompute :=
    match body w with
    | (Ret r, w') => (Ret r, set (<[sel := (args, r)]> (get w')) w')
    | (Throw e, w') => (Throw e, w')
    | (OutOfFuel, w') => (OutOfFuel, w')
    | (Builtin key, w') => (Builtin key, w')
    end in
  match get w !! sel with
  | Some (lastArgs, lastResult) =>
      if bool_decide (lastArgs = args)
      then (Ret lastResult, set (<[sel := (args, lastResult)]> (get w)) w)
      else recompute
  | None => recompute
  end.
Proof.
  unfold memoized. rewrite run_bind. cbn [gets].
  assert (∀ w0, (result ← body;
                 modify (λ w1, set (<[sel := (args, result)]> (get w1)) w1);;
                 mret result) w0
                = match body w0 with
                  | (Ret r, w') => (Ret r, set (<[sel := (args, r)]> (get w')) w')
                  | (Throw e, w') => (Throw e, w')
                  | (OutOfFuel, w') => (OutOfFuel, w')
                  | (Builtin key, w') => (Builtin key, w')
                  end) as Hre.
  { intros w0. rewrite run_bind. by destruct (body w0) as [[?|?| |?] ?]. }
  destruct (get w !! sel) as [[lastArgs lastResult]|]; [|apply Hre].
  case_bool_decide; [done|apply Hre].
Qed.

Lemma steps_memoized (R0 : relation World) `{!PreOrder R0} {A R}
    `{EqDecision A} (get : World → Memo A R)
    (set : Memo A R → World → World) (sel : nat) (args : A) (body : M R) :
  steps R0 body → (∀ w m, R0 w (set m w)) →
  steps R0 (memoized get set sel args body).
Proof.
  intros Hb Hset w. rewrite memoized_run. cbn zeta.
  assert (R0 w (match body w with
                | (Ret r, w') => (Ret r, set (<[sel := (args, r)]> (get w')) w')
                | (Throw e, w') => (Throw e, w')
                | (OutOfFuel, w') => (OutOfFuel, w')
                | (Builtin key, w') => (Builtin key, w')
                end).2) as Hre.
  { specialize (Hb w). destruct (body w) as [[?|?| |?] ?]; cbn in *; [|done..].
    etrans; [exact Hb|apply Hset]. }
  destruct (get w !! sel) as [[lastArgs lastResult]|]; [|exact Hre].
  case_bool_decide; [apply Hset|exact Hre].
Qed.

Lemma grows_memoLayerVertices w m : grows w (set_memoLayerVertices m w).
Proof. by apply grows_same. Qed.
Lemma grows_memoTransformed w m : grows w (set_memoTransformed m w).
Proof. by apply grows_same. Qed.
Lemma grows_memoComputed w m : grows w (set_memoComputed m w).
Proof. by apply grows_same. Qed.
Lemma grows_memoPreview w m : grows w (set_memoPreview m w).
Proof. by apply grows_same. Qed.
Lemma grows_cache w c : grows w (set_cache c w).
Proof. by apply grows_same. Qed.
Lemma grows_generated w g : grows w (set_generated g w).
Proof. by apply grows_same. Qed.
Lemma grows_console w c : grows w (set_console c w).
Proof. by apply grows_same. Qed.

Lemma lookup_grows (k : Kind) (layerId : string) :
  steps grows (getCachedSelector (maker k) layerId).
Proof. apply registering_all. Qed.

Lemma newArr_grows (l : list Vertex) : steps grows (newArr l).
Proof.
  unfold newArr. apply steps_bind; [apply _|apply steps_alloc_grows|].
  intros a. apply steps_ret, _.
Qed.

Lemma callLayer_grows i s : steps grows (callLayer i s).
Proof.
  unfold callLayer. apply steps_bind; [apply _|apply (lookup_grows KLayer)|].
  intros _. apply steps_ret, _.
Qed.

Lemma callLayerIndex_grows i s : steps grows (callLayerIndex i s).
Proof.
  unfold callLayerIndex.
  apply steps_bind; [apply _|apply (lookup_grows KLayerIndex)|].
  intros _. apply steps_ret, _.
Qed.

Lemma callNextLayerId_grows i s : steps grows (callNextLayerId i s).
Proof.
  unfold callNextLayerId.
  apply steps_bind; [apply _|apply (lookup_grows KNextLayerId)|].
  intros _. apply steps_ret, _.
Qed.

Lemma callEffects_grows i s : steps grows (callEffects i s).
Proof.
  unfold callEffects. apply steps_bind; [apply _|apply (lookup_grows KEffects)|].
  intros _. apply steps_ret, _.
Qed.

Lemma LayerMachine_result_run (i : string) (allLayers : Layers) (m : Machine)
    (w : World) :
  LayerMachine_result i allLayers m w =
  match property (byId allLayers) i with
  | Undefined => (Throw "TypeError", w)
  | Own layer => (Ret (if usesMachine layer then Some m else None), w)
  | Inherited _ => (Ret None, w)
  end.
Proof.
  unfold LayerMachine_result. by destruct (property (byId allLayers) i).
Qed.

(** Writing the memo of a registered machine selector with what its result
    function returns keeps the state consistent. *)
Lemma grows_memoLayerMachine (w : World) (i : string) (sel : nat)
    (allLayers : Layers) (m : Machine) (r : option Machine) :
  selectorAt w "makeGetLayerMachine" i = Some sel →
  (memoLayerMachine w !! sel = Some ((allLayers, m), r) ∨
   LayerMachine_result i allLayers m w = (Ret r, w)) →
  grows w (set_memoLayerMachine
             (<[sel := ((allLayers, m), r)]> (memoLayerMachine w)) w).
Proof.
  intros Hsel Hr. split; [|by intros k j n].
  intros [H1 Ho H2 H3 H4]. split; [done..|].
  intros n ls' m' r'. cbn [memoLayerMachine set_memoLayerMachine].
  destruct (decide (n = sel)) as [->|Hn].
  - rewrite lookup_insert_eq. intros [= <- <- <-].
    destruct Hr as [Hr|Hr]; [by apply H4|].
    exists i. split; [done|]. intros w0.
    rewrite LayerMachine_result_run in Hr |- *.
    destruct (property (byId allLayers) i); by simplify_eq.
  - rewrite lookup_insert_ne by done. apply H4.
Qed.

Lemma callLayerMachine_grows i s : steps grows (callLayerMachine i s).
Proof.
  intros w. unfold callLayerMachine. rewrite run_bind.
  pose proof (lookup_grows KLayerMachine i w
              : grows w (getCachedSelector makeGetLayerMachine i w).2) as Hg.
  destruct (getCachedSelector makeGetLayerMachine i w) as [[sel|e| |?] w1] eqn:Hl;
    cbn [snd] in Hg |- *; [|done..].
  apply getCachedSelector_result in Hl. cbn [name makeGetLayerMachine] in Hl.
  etrans; [exact Hg|]. rewrite memoized_run. cbn zeta.
  rewrite LayerMachine_result_run.
  destruct (memoLayerMachine w1 !! sel) as [[lastArgs lastResult]|] eqn:Hm.
  - case_bool_decide as Ha.
    + subst lastArgs. cbn. apply (grows_memoLayerMachine w1 i); auto.
    + destruct (property (byId (getLayersById s)) i) eqn:Hb; cbn; [..|done];
        (apply (grows_memoLayerMachine w1 i); [done|]; right;
         by rewrite LayerMachine_result_run, Hb).
  - destruct (property (byId (getLayersById s)) i) eqn:Hb; cbn; [..|done];
      (apply (grows_memoLayerMachine w1 i); [done|]; right;
       by rewrite LayerMachine_result_run, Hb).
Qed.

Lemma LayerVertices_result_grows layer machine :
  steps grows (LayerVertices_result layer machine).
Proof.
  unfold LayerVertices_result. destruct layer as [layer|]; [|apply steps_throw, _].
  assert (Hgen : ∀ st, steps grows (generate st)).
  { intros st. unfold generate. apply steps_bind; [apply _|..].
    - apply steps_modify. intros w. apply grows_generated.
    - intros _. apply newArr_grows. }
  destruct (shouldCache layer).
  - apply steps_bind; [apply _|..].
    { unfold getCacheKey. destruct (JSON_stringify _);
        [apply steps_ret|apply steps_throw]; apply _. }
    intros key. apply steps_bind; [apply _|..].
    { intros w. unfold cacheGet. destruct (cache_get key (cache w)).
      apply grows_cache. }
    intros [v|]; [apply steps_ret, _|].
    apply steps_bind; [apply _|apply Hgen|]. intros v.
    apply steps_bind; [apply _|..].
    { apply steps_modify. intros w. apply grows_cache. }
    intros _. apply steps_ret, _.
  - cbn. destruct (_ && _); [apply newArr_grows|apply Hgen].
Qed.

Lemma callLayerVertices_grows i s : steps grows (callLayerVertices i s).
Proof.
  unfold callLayerVertices.
  apply steps_bind; [apply _|apply (lookup_grows KLayerVertices)|intros sel].
  apply steps_bind; [apply _|apply callLayer_grows|intros layer].
  apply steps_bind; [apply _|apply callLayerMachine_grows|intros machine].
  apply steps_memoized; [apply _|apply LayerVertices_result_grows|].
  apply grows_memoLayerVertices.
Qed.

Lemma callTransformedVertices_grows i s :
  steps grows (callTransformedVertices i s).
Proof.
  unfold callTransformedVertices.
  apply steps_bind;
    [apply _|apply (lookup_grows KTransformedVertices)|intros sel].
  apply steps_bind; [apply _|apply callLayerVertices_grows|intros vertices].
  apply steps_bind; [apply _|apply callLayer_grows|intros layer].
  apply steps_bind; [apply _|apply callEffects_grows|intros effects].
  apply steps_memoized; [apply _|apply newArr_grows|].
  apply grows_memoTransformed.
Qed.

Lemma stitched_grows (computedOf : string → State → M Arr) (layerId : string)
    (vertices : Arr) (layerIndex : Z) (nextLayerId : option string)
    (numLayers : Z) (allLayers : Layers) (m : Machine) :
  (∀ next s, steps grows (computedOf next s)) →
  steps grows (stitched computedOf layerId vertices layerIndex nextLayerId
                 numLayers allLayers m).
Proof.
  intros Hnext. unfold stitched.
  apply steps_bind; [apply _|..].
  { apply steps_modify. intros w. apply grows_console. }
  intros _. case_bool_decide; [|apply steps_ret, _].
  assert (Hbridge : ∀ next,
    steps grows
      (nextVertices ← computedOf next (Build_State allLayers m None);
       match elems nextVertices with
       | next0 :: _ =>
           match property (byId allLayers) layerId with
           | Undefined => throw "TypeError"
           | Own layer =>
               if bool_decide (connectionMethod layer = "along perimeter")
               then
                 mret (elems vertices ++
                       [nearestPerimeterVertex m (last (elems vertices))] ++
                       tracePerimeter m
                         (nearestPerimeterVertex m (last (elems vertices)))
                         (nearestPerimeterVertex m (Some next0)) ++
                       [nearestPerimeterVertex m (Some next0); next0])
               else mret (elems vertices ++ [next0])
           | Inherited _ => mret (elems vertices ++ [next0])
           end
       | [] => mret (elems vertices)
       end)).
  { intros next.
    apply steps_bind; [apply _|apply Hnext|intros nextVertices].
    destruct (elems nextVertices); [apply steps_ret, _|].
    destruct (property (byId allLayers) layerId);
      [|apply steps_ret, _|apply steps_throw, _].
    case_bool_decide; apply steps_ret, _. }
  destruct (nextLayerOf nextLayerId allLayers) as [nextLayer|key|];
    [| |apply steps_ret, _];
    (destruct nextLayerId as [next|]; [|apply steps_ret, _]).
  - destruct (negb (dragging nextLayer)); [|apply steps_ret, _].
    apply Hbridge.
  - apply Hbridge.
Qed.

Lemma callComputedVertices_grows fuel :
  ∀ i s, steps grows (callComputedVertices fuel i s).
Proof.
  induction fuel as [|fuel IH]; intros i s; [apply steps_outOfFuel, _|].
  cbn [callComputedVertices].
  apply steps_bind; [apply _|apply (lookup_grows KComputedVertices)|intros sel].
  apply steps_bind;
    [apply _|apply callTransformedVertices_grows|intros vertices].
  apply steps_bind; [apply _|apply callLayerIndex_grows|intros layerIndex].
  apply steps_bind; [apply _|apply callNextLayerId_grows|intros nextLayerId].
  apply steps_memoized; [apply _| |apply grows_memoComputed].
  unfold ComputedVertices_result.
  apply steps_bind; [apply _|by apply stitched_grows|].
  intros vs. apply newArr_grows.
Qed.

Lemma callPreviewVertices_grows fuel i s :
  steps grows (callPreviewVertices fuel i s).
Proof.
  unfold callPreviewVertices.
  apply steps_bind; [apply _|apply (lookup_grows KPreviewVertices)|intros sel].
  apply steps_bind;
    [apply _|apply callTransformedVertices_grows|intros transformed].
  apply steps_bind; [apply _|apply callComputedVertices_grows|intros computed].
  apply steps_memoized; [apply _| |apply grows_memoPreview].
  unfold PreviewVertices_result.
  destruct (property (byId (getLayersById s)) i);
    [|apply steps_builtin, _|apply steps_throw, _].
  apply newArr_grows.
Qed.

Lemma getAllComputedVertices_grows fuel s :
  steps grows (getAllComputedVertices fuel s).
Proof.
  unfold getAllComputedVertices. apply steps_bind; [apply _|..].
  - apply steps_mapM; [apply _|]. intros id. apply callComputedVertices_grows.
  - intros perLayer. apply steps_ret, _.
Qed.

Lemma getAllPreviewVertices_grows fuel s :
  steps grows (getAllPreviewVertices fuel s).
Proof.
  unfold getAllPreviewVertices. apply steps_bind; [apply _|..].
  - apply steps_mapM; [apply _|]. intros id. apply callPreviewVertices_grows.
  - intros perLayer. apply steps_ret, _.
Qed.

Lemma offsets_forEach_grows fuel s ids :
  ∀ offsets0 offset0, steps grows (offsets_forEach fuel s ids offsets0 offset0).
Proof.
  induction ids as [|id ids IH]; intros offsets0 offset0; cbn.
  - apply steps_ret, _.
  - apply steps_bind; [apply _|apply callComputedVertices_grows|].
    intros vertices. apply IH.
Qed.

Lemma getSliderColors_grows fuel i s : steps grows (getSliderColors fuel i s).
Proof.
  unfold getSliderColors.
  apply steps_bind; [apply _|apply getAllPreviewVertices_grows|intros vs].
  apply steps_bind; [apply _|apply callPreviewVertices_grows|intros lvs].
  apply steps_bind; [apply _|apply offsets_forEach_grows|intros offsets].
  unfold SliderColors_result. destruct (getPreview s); [|apply steps_throw, _].
  destruct (negb _); [apply steps_ret, _|].
  destruct (property offsets i);
    [apply steps_ret, _|apply steps_builtin, _|apply steps_ret, _].
Qed.

Lemma serve_grows (w : World) (r : Request) : grows w (serve w r).
Proof.
  destruct r; cbn [serve].
  - apply lookup_grows.
  - apply callPreviewVertices_grows.
  - apply getAllComputedVertices_grows.
  - apply getAllPreviewVertices_grows.
  - apply offsets_forEach_grows.
  - apply getSliderColors_grows.
Qed.

Lemma serveAll_grows (rs : list Request) : ∀ w, grows w (serveAll w rs).
Proof.
  induction rs as [|r rs IH]; intros w; cbn; [reflexivity|].
  etrans; [apply serve_grows|apply IH].
Qed.

Lemma consistent_initial (c : Cache) : consistent (initial c).
Proof.
  split.
  - intros k i n. unfold selectorAt. cbn.
    rewrite lookup_total_empty.
    change (inhabitant !! i) with ((∅ : gmap string nat) !! i).
    rewrite lookup_empty, elem_of_nil. naive_solver.
  - intros k i n. unfold selectorAt. cbn.
    rewrite lookup_total_empty.
    change (inhabitant !! i) with ((∅ : gmap string nat) !! i).
    by rewrite lookup_empty.
  - intros k i n. cbn. by rewrite elem_of_nil.
  - cbn. apply NoDup_nil_2.
  - intros n ls m r. cbn. by rewrite lookup_empty.
Qed.

(** No two calls [fn(layerId)] in the history of a consistent state are for
    the same maker and layer. *)
Lemma consistent_created_once (w : World) :
  consistent w → NoDup (created w).*1.
Proof.
  intros [H1 _ _ H3 _].
  assert (Hnd : NoDup (created w)) by (by eapply NoDup_fmap_1).
  apply NoDup_fmap_2_strong; [|exact Hnd].
  intros [[k i] n] [[k' i'] n'] Hx Hy. cbn. intros [= <- <-].
  apply H1 in Hx, Hy. congruence.
Qed.

(** C6.  Whatever was asked of the module since it was loaded, once
    [getCachedSelector] has answered for a maker and a layer, every later
    call for the same maker and layer returns that same selector and leaves
    the registry as it is; no maker was ever called twice for the same
    layer, so at most one selector exists per (maker, layer). *)
Theorem registry_single_instance (c : Cache) (before after : list Request)
    (k : Kind) (layerId : string) (selector : nat) (w1 : World) :
  getCachedSelector (maker k) layerId (serveAll (initial c) before)
    = (Ret selector, w1) →
  let w2 := serveAll w1 after in
  getCachedSelector (maker k) layerId w2 = (Ret selector, w2) ∧
  NoDup (created w2).*1.
Proof.
  intros Hfirst w2. split.
  - apply getCachedSelector_registered.
    apply (serveAll_grows after w1), (getCachedSelector_result _ _ _ _ _ Hfirst).
  - apply consistent_created_once.
    apply (serveAll_grows after w1).
    pose proof (lookup_grows k layerId (serveAll (initial c) before)) as [Hc _].
    rewrite Hfirst in Hc. apply Hc.
    apply (serveAll_grows before (initial c)), consistent_initial.
Qed.

(** ** The machine input of a shape that does not use the machine *)

Lemma NoDup_fmap_elem_inj {A B} (f : A → B) (l : list A) (x y : A) :
  NoDup (f <$> l) → x ∈ l → y ∈ l → f x = f y → x = y.
Proof.
  induction l as [|a l IH]; cbn; [by rewrite elem_of_nil|].
  intros [Ha Hnd]%NoDup_cons [->|Hx]%elem_of_cons [->|Hy]%elem_of_cons Hf.
  - done.
  - destruct Ha. rewrite Hf. by apply list_elem_of_fmap_2.
  - destruct Ha. rewrite <- Hf. by apply list_elem_of_fmap_2.
  - by apply IH.
Qed.

Lemma registry_injective (w : World) (k k' i i' : string) (n : nat) :
  consistent w →
  selectorAt w k i = Some n → selectorAt w k' i' = Some n →
  k = k' ∧ i = i'.
Proof.
  intros [H1 _ _ H3 _] Hx%H1 Hy%H1.
  assert ((k, i, n) = (k', i', n)) as [= -> ->]; [|done].
  by eapply (NoDup_fmap_elem_inj snd); [exact H3|..].
Qed.

(** A lookup that returns a selector in a consistent state is for a layer
    id that objects do not inherit. *)
Lemma lookup_ret_own (fn : Maker) (layerId : string) (w w' : World)
    (n : nat) :
  consistent w →
  getCachedSelector fn layerId w = (Ret n, w') →
  inherited layerId = false.
Proof.
  intros Hw. rewrite getCachedSelector_run.
  destruct (selectorAt w (name fn) layerId) as [n'|] eqn:Hs.
  - intros _. by apply (registry_own w Hw (name fn) layerId n').
  - by destruct (inherited layerId).
Qed.

Lemma leaf_lookup_ret (fn : Maker) (layerId : string) (w : World) :
  inherited layerId = false →
  make fn layerId = createSelector →
  ∃ n w', getCachedSelector fn layerId w = (Ret n, w').
Proof.
  intros Hown Hm. rewrite getCachedSelector_run, Hown.
  destruct (selectorAt w (name fn) layerId); [eauto|].
  rewrite Hm. unfold createSelector. rewrite alloc_run. eauto.
Qed.

Lemma callLayer_run (i : string) (s : State) (w : World) :
  inherited i = false →
  ∃ w', callLayer i s w = (Ret (getLayer i s), w') ∧
        grows w w' ∧ rawUntouched w w'.
Proof.
  intros Hown.
  destruct (leaf_lookup_ret makeGetLayer i w Hown eq_refl) as (n & w' & Hl).
  exists w'. unfold callLayer. rewrite run_bind, Hl. split; [done|].
  pose proof (registering_Layer i) as (Hg & _ & Hr).
  specialize (Hg w). specialize (Hr w).
  change (maker KLayer) with makeGetLayer in Hg, Hr.
  rewrite Hl in Hg, Hr. done.
Qed.

Lemma callLayerMachine_null (i : string) (s : State) (layer : Layer)
    (w : World) :
  consistent w → inherited i = false →
  byId (getLayersById s) !! i = Some layer → usesMachine layer = false →
  ∃ w', callLayerMachine i s w = (Ret None, w') ∧
        grows w w' ∧ rawUntouched w w'.
Proof.
  intros Hw Hown Hl Hu.
  destruct (leaf_lookup_ret makeGetLayerMachine i w Hown eq_refl)
    as (sel & w1 & Hs).
  pose proof (registering_LayerMachine i) as (Hg & _ & Hr).
  specialize (Hg w). specialize (Hr w).
  change (maker KLayerMachine) with makeGetLayerMachine in Hg, Hr.
  rewrite Hs in Hg, Hr. cbn [snd] in Hg, Hr.
  pose proof (callLayerMachine_grows i s w) as Hgrow.
  unfold callLayerMachine in Hgrow |- *. rewrite run_bind, Hs in Hgrow |- *.
  apply getCachedSelector_result in Hs. cbn [name makeGetLayerMachine] in Hs.
  assert (Hres : ∀ w0, LayerMachine_result i (getLayersById s) (getMachine s) w0
                       = (Ret None, w0)).
  { intros w0. by rewrite LayerMachine_result_run, (property_own _ _ _ Hl), Hu. }
  rewrite memoized_run in Hgrow |- *. cbn zeta in Hgrow |- *.
  rewrite Hres in Hgrow |- *.
  destruct (memoLayerMachine w1 !! sel) as [[lastArgs lastResult]|] eqn:Hm.
  - case_bool_decide as Ha.
    + subst lastArgs.
      destruct Hg as [Hc _].
      destruct (machine_memo w1 (Hc Hw) sel _ _ _ Hm) as (i' & Hi' & Hr').
      destruct (registry_injective w1 _ _ _ _ sel (Hc Hw) Hi' Hs) as [_ ->].
      specialize (Hr' w1). rewrite Hres in Hr'. injection Hr' as <-.
      eexists. split; [reflexivity|]. split; [exact Hgrow|].
      etrans; [exact Hr|]. by repeat split.
    + eexists. split; [reflexivity|]. split; [exact Hgrow|].
      etrans; [exact Hr|]. by repeat split.
  - eexists. split; [reflexivity|]. split; [exact Hgrow|].
    etrans; [exact Hr|]. by repeat split.
Qed.

Lemma bind_ret_inv {A B} (m : M A) (f : A → M B) (w w' : World) (b : B) :
  (m ≫= f) w = (Ret b, w') →
  ∃ a w1, m w = (Ret a, w1) ∧ f a w1 = (Ret b, w').
Proof.
  rewrite run_bind. destruct (m w) as [[a|e| |?] w1]; [eauto|done..].
Qed.

Lemma set_memoLayerVertices_same (w : World) :
  set_memoLayerVertices (memoLayerVertices w) w = w.
Proof. by destruct w. Qed.

(** C1.  Let two states agree on a layer that does not use the machine, and
    differ at will in their machine.  In both, the machine input of the raw
    stage is null and the cache key is the same; and once the raw stage was
    evaluated in the first state, evaluating it in the second returns the
    same array without calling the generator and without touching the
    cache. *)
Theorem raw_ignores_machine (layerId : string) (s1 s2 : State)
    (layer : Layer) (w w1 : World) (vertices : Arr) :
  consistent w →
  usesMachine layer = false →
  getLayer layerId s1 = Some layer →
  byId (getLayersById s1) !! layerId = Some layer →
  getLayer layerId s2 = Some layer →
  byId (getLayersById s2) !! layerId = Some layer →
  callLayerVertices layerId s1 w = (Ret vertices, w1) →
  (∀ s w0, s = s1 ∨ s = s2 → consistent w0 →
     ∃ w0', callLayerMachine layerId s w0 = (Ret None, w0')) ∧
  (∀ m1 m2 wa wa' wb wb',
     LayerMachine_result layerId (getLayersById s1) (getMachine s1) wa
       = (Ret m1, wa') →
     LayerMachine_result layerId (getLayersById s2) (getMachine s2) wb
       = (Ret m2, wb') →
     getCacheKey {| shape := layer; shape_machine := m1 |}
     = getCacheKey {| shape := layer; shape_machine := m2 |}) ∧
  ∃ w2,
    callLayerVertices layerId s2 w1 = (Ret vertices, w2) ∧
    generated w2 = generated w1 ∧ cache w2 = cache w1 ∧
    memoLayerVertices w2 = memoLayerVertices w1.
Proof.
  intros Hw Hu Hl1 Hb1 Hl2 Hb2 Hrun.
  assert (Hown : inherited layerId = false).
  { unfold callLayerVertices in Hrun.
    apply bind_ret_inv in Hrun as (sel & wa & Hsel & _).
    by apply (lookup_ret_own _ _ _ _ _ Hw Hsel). }
  split; [|split].
  - intros s w0 [->| ->] Hw0.
    + destruct (callLayerMachine_null layerId s1 layer w0) as (w0' & ? & _);
        eauto.
    + destruct (callLayerMachine_null layerId s2 layer w0) as (w0' & ? & _);
        eauto.
  - intros m1 m2 wa wa' wb wb'.
    rewrite !LayerMachine_result_run.
    rewrite (property_own _ _ _ Hb1), (property_own _ _ _ Hb2), Hu.
    by intros [= <- _] [= <- _].
  - (* the first run *)
    unfold callLayerVertices in Hrun.
    apply bind_ret_inv in Hrun as (sel & wa & Hsel & Hrun).
    pose proof (lookup_grows KLayerVertices layerId w) as Hga.
    change (maker KLayerVertices) with makeGetLayerVertices in Hga.
    rewrite Hsel in Hga. cbn [snd] in Hga.
    apply getCachedSelector_result in Hsel.
    cbn [name makeGetLayerVertices] in Hsel.
    destruct (callLayer_run layerId s1 wa Hown) as (wb & Hlay & Hgb & _).
    rewrite (run_bind_ret _ _ _ _ _ Hlay), Hl1 in Hrun.
    destruct (callLayerMachine_null layerId s1 layer wb) as (wc & Hmach & Hgc & _);
      [by apply Hgb, Hga|done..|].
    rewrite (run_bind_ret _ _ _ _ _ Hmach) in Hrun.
    pose proof (steps_memoized grows memoLayerVertices set_memoLayerVertices
                  sel (Some layer, None) _
                  (LayerVertices_result_grows (Some layer) None)
                  grows_memoLayerVertices wc) as Hgd.
    rewrite Hrun in Hgd. cbn [snd] in Hgd.
    assert (Hmemo : memoLayerVertices w1 !! sel
                    = Some ((Some layer, None), vertices)).
    { rewrite memoized_run in Hrun. cbn zeta in Hrun.
      destruct (memoLayerVertices wc !! sel) as [[lastArgs lastResult]|].
      - case_bool_decide.
        + injection Hrun as <- <-. cbn. apply lookup_insert_eq.
        + destruct (LayerVertices_result _ _ wc) as [[?|?| |?] ?]; [|done..].
          injection Hrun as <- <-. cbn. apply lookup_insert_eq.
      - destruct (LayerVertices_result _ _ wc) as [[?|?| |?] ?]; [|done..].
        injection Hrun as <- <-. cbn. apply lookup_insert_eq. }
    assert (Hw1 : consistent w1) by (by apply Hgd, Hgc, Hgb, Hga).
    assert (Hsel1 : selectorAt w1 "makeGetLayerVertices" layerId = Some sel)
      by (by apply Hgd, Hgc, Hgb).
    (* the second run *)
    unfold callLayerVertices.
    rewrite (run_bind_ret _ _ _ _ _
               (getCachedSelector_registered makeGetLayerVertices _ _ _ Hsel1)).
    destruct (callLayer_run layerId s2 w1 Hown) as (wb' & Hlay' & Hgb' & Hrb').
    rewrite (run_bind_ret _ _ _ _ _ Hlay'), Hl2.
    destruct (callLayerMachine_null layerId s2 layer wb')
      as (wc' & Hmach' & Hgc' & Hrc'); [by apply Hgb'|done..|].
    rewrite (run_bind_ret _ _ _ _ _ Hmach').
    destruct Hrb' as (Hb1' & Hb2' & Hb3'). destruct Hrc' as (Hc1' & Hc2' & Hc3').
    rewrite memoized_run. cbn zeta.
    rewrite Hc1', Hb1', Hmemo. rewrite bool_decide_eq_true_2 by done.
    eexists. split; [reflexivity|]. cbn.
    rewrite insert_id by done. repeat split; congruence.
Qed.

End Properties.

(** * Further properties of the module *)

Section Further.
Context {D : Domain} {E : Externals} {X : Measures}.

#[local] Existing Instances persists_preorder touches_preorder
  grows_preorder rawUntouched_preorder.

(** ** The registry *)

Lemma maker_name_inj (k k' : Kind) :
  name (maker k) = name (maker k') → k = k'.
Proof. destruct k, k'; first [reflexivity|discriminate]. Qed.

(** X1.  Whatever was asked of the module since it was loaded, a selector
    that a lookup returns belongs to one maker and one layer: when a lookup
    and a later lookup return the same selector, they are for the same
    maker and the same layer, and the layer id is not the name of a member
    of [Object.prototype].  (For such a name no lookup returns a selector:
    every maker gets the inherited member, [getCachedSelector_inherited].) *)
Theorem registry_distinct (c : Cache) (before after : list Request)
    (k k' : Kind) (i i' : string) (n : nat) (w1 w2 : World) :
  getCachedSelector (maker k) i (serveAll (initial c) before) = (Ret n, w1) →
  getCachedSelector (maker k') i' (serveAll w1 after) = (Ret n, w2) →
  k = k' ∧ i = i' ∧ inherited i = false.
Proof.
  intros Hfirst Hsecond.
  assert (Hw0 : consistent (serveAll (initial c) before)).
  { apply (serveAll_grows before (initial c)), consistent_initial. }
  pose proof (lookup_grows k i (serveAll (initial c) before)) as [Hc1 _].
  rewrite Hfirst in Hc1. cbn [snd] in Hc1.
  pose proof (serveAll_grows after w1) as [Hc1' Hp1'].
  pose proof (lookup_grows k' i' (serveAll w1 after)) as [Hc2 Hp2].
  rewrite Hsecond in Hc2, Hp2. cbn [snd] in Hc2, Hp2.
  pose proof (getCachedSelector_result _ _ _ _ _ Hfirst) as Hat.
  apply Hp1', Hp2 in Hat.
  pose proof (getCachedSelector_result _ _ _ _ _ Hsecond) as Hat'.
  destruct (registry_injective w2 _ _ _ _ n (Hc2 (Hc1' (Hc1 Hw0))) Hat Hat')
    as [Hk <-].
  split; [by apply maker_name_inj|]. split; [done|].
  by apply (lookup_ret_own _ _ _ _ _ Hw0 Hfirst).
Qed.

(** ** The machine input *)

Lemma callLayerMachine_value (i : string) (s : State) (layer : Layer)
    (w : World) :
  consistent w → inherited i = false →
  byId (getLayersById s) !! i = Some layer →
  ∃ w', callLayerMachine i s w
        = (Ret (if usesMachine layer then Some (getMachine s) else None), w').
Proof.
  intros Hw Hown Hl.
  destruct (leaf_lookup_ret makeGetLayerMachine i w Hown eq_refl)
    as (sel & w1 & Hs).
  pose proof (lookup_grows KLayerMachine i w
              : grows w (getCachedSelector makeGetLayerMachine i w).2) as Hg.
  rewrite Hs in Hg. cbn [snd] in Hg. destruct Hg as [Hc _].
  unfold callLayerMachine. rewrite run_bind, Hs.
  apply getCachedSelector_result in Hs. cbn [name makeGetLayerMachine] in Hs.
  assert (Hres : ∀ w0, LayerMachine_result i (getLayersById s) (getMachine s) w0
             = (Ret (if usesMachine layer then Some (getMachine s) else None),
                w0)).
  { intros w0. by rewrite LayerMachine_result_run, (property_own _ _ _ Hl). }
  rewrite memoized_run. cbn zeta. rewrite Hres.
  destruct (memoLayerMachine w1 !! sel) as [[lastArgs lastResult]|] eqn:Hm;
    [|eauto].
  case_bool_decide as Ha; [|eauto]. subst lastArgs.
  destruct (machine_memo w1 (Hc Hw) sel _ _ _ Hm) as (i' & Hi' & Hr').
  destruct (registry_injective w1 _ _ _ _ sel (Hc Hw) Hi' Hs) as [_ ->].
  specialize (Hr' w1). rewrite Hres in Hr'. injection Hr' as <-. eauto.
Qed.

(** In a consistent state the registry has no selector of its own under a
    name that objects inherit: the lookup hands out the inherited member. *)
Lemma lookup_inherited (k : Kind) (i : string) (w : World) :
  consistent w → inherited i = true →
  getCachedSelector (maker k) i w = (Builtin i, withName (maker k) w).
Proof.
  intros Hw Hi. apply getCachedSelector_inherited; [done|].
  destruct (selectorAt w (name (maker k)) i) as [n|] eqn:Hs; [|done].
  apply (registry_own w Hw) in Hs. congruence.
Qed.

(** X2.  In a consistent module state, the machine input that
    [makeGetLayerMachine] selects for a layer is the state's machine when
    the layer uses the machine and null when it does not, whatever the
    selector remembers.  This is so for every layer id but the names of the
    members of [Object.prototype]: under such a name the registry finds the
    inherited member, and the call goes on with it. *)
Theorem machine_input (i : string) (s : State) (layer : Layer) (w : World) :
  consistent w →
  byId (getLayersById s) !! i = Some layer →
  (callLayerMachine i s w).1
  = if inherited i then Builtin i
    else Ret (if usesMachine layer then Some (getMachine s) else None).
Proof.
  intros Hw Hl. destruct (inherited i) eqn:Hown.
  - unfold callLayerMachine. rewrite run_bind.
    pose proof (lookup_inherited KLayerMachine i w Hw Hown
                : getCachedSelector makeGetLayerMachine i w = _) as Hb.
    by rewrite Hb.
  - destruct (callLayerMachine_value i s layer w Hw Hown Hl) as (w' & ->).
    reflexivity.
Qed.

(** ** The computed stage *)

(** X3.  For the last visible layer (and any layer whose index is not
    below the last) the computed stage is the polish of the layer's own
    transformed vertices: the selector of a next layer is not called,
    whatever [nextLayerId] and the layers are, and the only trace is the
    console line. *)
Theorem last_layer_unstitched (computedOf : string → State → M Arr)
    (layerId : string) (vertices : Arr) (layerIndex : Z)
    (nextLayerId : option string) (numLayers : Z) (allLayers : Layers)
    (m : Machine) (w : World) :
  numLayers - 1 ≤ layerIndex →
  ComputedVertices_result computedOf layerId vertices layerIndex nextLayerId
    numLayers allLayers m w
  = (Ret {| arr_addr := next_addr w;
            elems := polishVertices (elems vertices) m
                       (bool_decide (layerIndex = 0))
                       (bool_decide (layerIndex = numLayers - 1)) |},
     set_next_addr (S (next_addr w)) (logged layerId w)).
Proof.
  intros Hi. unfold ComputedVertices_result, stitched.
  rewrite run_bind, run_bind. cbn [console_log modify].
  rewrite bool_decide_eq_false_2 by lia. reflexivity.
Qed.

(** X4.  Whenever the stitching returns, the path it returns starts with
    the layer's transformed vertices, unchanged and in order; what follows
    them is either nothing or a bridge that ends at the first computed
    vertex of the next layer. *)
Theorem stitched_keeps_prefix (computedOf : string → State → M Arr)
    (layerId : string) (vertices : Arr) (layerIndex : Z)
    (nextLayerId : option string) (numLayers : Z) (allLayers : Layers)
    (m : Machine) (w w' : World) (path : list Vertex) :
  stitched computedOf layerId vertices layerIndex nextLayerId numLayers
    allLayers m w = (Ret path, w') →
  ∃ bridge,
    path = elems vertices ++ bridge ∧
    (bridge = [] ∨
     ∃ next nextVertices,
       nextLayerId = Some next ∧
       computedOf next (Build_State allLayers m None) (logged layerId w)
         = (Ret nextVertices, w') ∧
       is_Some (last bridge) ∧ last bridge = head (elems nextVertices)).
Proof.
  unfold stitched. rewrite run_bind. cbn [console_log modify].
  fold (logged layerId w).
  assert (Hnone : ∀ w0, (Ret (elems vertices), w0) = (Ret path, w') →
            ∃ bridge, path = elems vertices ++ bridge ∧
              (bridge = [] ∨
               ∃ next nextVertices,
                 nextLayerId = Some next ∧
                 computedOf next (Build_State allLayers m None)
                   (logged layerId w) = (Ret nextVertices, w') ∧
                 is_Some (last bridge) ∧
                 last bridge = head (elems nextVertices))).
  { intros w0 [= <- _]. exists []. split; [by rewrite app_nil_r|by left]. }
  case_bool_decide; [|apply Hnone].
  assert (Hbridge : ∀ next, nextLayerId = Some next →
    (nextVertices ← computedOf next (Build_State allLayers m None);
     match elems nextVertices with
     | next0 :: _ =>
         match property (byId allLayers) layerId with
         | Undefined => throw "TypeError"
         | Own layer =>
             if bool_decide (connectionMethod layer = "along perimeter")
             then
               mret (elems vertices ++
                     [nearestPerimeterVertex m (last (elems vertices))] ++
                     tracePerimeter m
                       (nearestPerimeterVertex m (last (elems vertices)))
                       (nearestPerimeterVertex m (Some next0)) ++
                     [nearestPerimeterVertex m (Some next0); next0])
             else mret (elems vertices ++ [next0])
         | Inherited _ => mret (elems vertices ++ [next0])
         end
     | [] => mret (elems vertices)
     end) (logged layerId w) = (Ret path, w') →
    ∃ bridge, path = elems vertices ++ bridge ∧
      (bridge = [] ∨
       ∃ next nextVertices,
         nextLayerId = Some next ∧
         computedOf next (Build_State allLayers m None)
           (logged layerId w) = (Ret nextVertices, w') ∧
         is_Some (last bridge) ∧
         last bridge = head (elems nextVertices))).
  { intros next Hnext. rewrite run_bind.
    destruct (computedOf next _ (logged layerId w)) as [[nv|e| |?] w1] eqn:Hnv;
      [|done..].
    destruct (elems nv) as [|next0 rest] eqn:Hel; [apply Hnone|].
    assert (Hdirect :
      (Ret (elems vertices ++ [next0]), w1) = (Ret path, w') →
      ∃ bridge, path = elems vertices ++ bridge ∧
        (bridge = [] ∨
         ∃ next nextVertices,
           nextLayerId = Some next ∧
           computedOf next (Build_State allLayers m None)
             (logged layerId w) = (Ret nextVertices, w') ∧
           is_Some (last bridge) ∧
           last bridge = head (elems nextVertices))).
    { intros [= <- <-]. eexists. split; [reflexivity|]. right.
      exists next, nv. rewrite Hel.
      split; [done|]. split; [done|]. by split; [eexists|]. }
    destruct (property (byId allLayers) layerId) as [layer|key|];
      [|exact Hdirect|done].
    case_bool_decide; [|exact Hdirect]. intros [= <- <-].
    eexists. split; [reflexivity|]. right. exists next, nv.
    rewrite Hel. split; [done|]. split; [done|].
    rewrite last_cons, last_app. cbn. by split; [eexists|]. }
  destruct (nextLayerOf nextLayerId allLayers) as [nextLayer|key|];
    [| |apply Hnone];
    (destruct nextLayerId as [next|]; [|apply Hnone]).
  - destruct (negb (dragging nextLayer)); [|apply Hnone]. by apply Hbridge.
  - by apply Hbridge.
Qed.

(** ** The slider gradient *)

Lemma lookup_fold_insert (f : Z → string) (l : list Z)
    (colors : gmap Z string) (i : Z) :
  foldl (λ colors i, <[i := f i]> colors) colors l !! i
  = if bool_decide (i ∈ l) then Some (f i) else colors !! i.
Proof.
  revert colors. induction l as [|a l IH]; intros colors; cbn.
  - rewrite bool_decide_eq_false_2; [done|apply not_elem_of_nil].
  - rewrite IH. destruct (decide (i ∈ l)) as [Hl|Hl].
    + rewrite !bool_decide_eq_true_2; [done|by right|done].
    + rewrite (bool_decide_eq_false_2 (i ∈ l)) by done.
      destruct (decide (i = a)) as [->|Hne].
      * rewrite lookup_insert_eq, bool_decide_eq_true_2; [done|by left].
      * rewrite lookup_insert_ne by done.
        rewrite bool_decide_eq_false_2; [done|].
        by intros [?|?]%elem_of_cons.
Qed.

Lemma countdown_colors (f : Z → string) (start end_ i : Z) :
  foldl (λ colors i, <[i := f i]> colors) (∅ : gmap Z string)
    (countdown start end_) !! i
  = if bool_decide (start ≤ i ≤ end_) then Some (f i) else None.
Proof.
  rewrite lookup_fold_insert, lookup_empty.
  apply (f_equal (λ b : bool, if b then Some (f i) else None)).
  apply bool_decide_ext, countdown_elem.
Qed.

(** X5.  With a positive slider value the gradient covers the range the
    bounds resolver returns, both ends included, whatever the layer and
    the offsets are: index [i] maps to the base colour darkened by
    [3/8/(end - start) * (end - i)], and no other index has a colour (none
    at all when [end < start]). *)
Theorem slider_colors_positive (layerId : string) (vertices : list Vertex)
    (p : Preview) (layerVertices : Arr) (offsets : gmap string Z)
    (w : World) :
  (0 < sliderValue p)%Q →
  let start := (getSliderBounds vertices (sliderValue p)).1 in
  let end_ := (getSliderBounds vertices (sliderValue p)).2 in
  let colorStep :=
    num_div (num_div (num_of_Z 3) (num_of_Z 8)) (num_of_Z (end_ - start)) in
  ∃ colors,
    SliderColors_result layerId vertices (Some p) layerVertices offsets w
      = (Ret colors, w) ∧
    ∀ i, colors !! i
         = if bool_decide (start ≤ i ≤ end_)
           then Some (darken_hex (num_mul colorStep (num_of_Z (end_ - i))))
           else None.
Proof.
  intros Hv start end_ colorStep. unfold SliderColors_result.
  assert (Qle_bool (sliderValue p) 0 = false) as ->.
  { destruct (Qle_bool (sliderValue p) 0) eqn:Hle; [|done].
    apply Qle_bool_iff in Hle. by apply Qlt_not_le in Hv. }
  cbn [negb]. eexists. split; [reflexivity|].
  intros i. apply countdown_colors.
Qed.

(** X6.  With a slider value that is not positive, the gradient of a layer
    with an offset maps every index [i] from the offset to the offset plus
    the number of preview vertices to the base colour darkened by
    [3/8/n * (end - i)]: undarkened step at [end], the full [3/8] at the
    offset. *)
Theorem slider_colors_values (layerId : string) (vertices : list Vertex)
    (p : Preview) (layerVertices : Arr) (offsets : gmap string Z)
    (start : Z) (w : World) :
  (sliderValue p <= 0)%Q →
  offsets !! layerId = Some start →
  let end_ := start + Z.of_nat (length (elems layerVertices)) in
  let colorStep :=
    num_div (num_div (num_of_Z 3) (num_of_Z 8)) (num_of_Z (end_ - start)) in
  ∃ colors,
    SliderColors_result layerId vertices (Some p) layerVertices offsets w
      = (Ret colors, w) ∧
    ∀ i, colors !! i
         = if bool_decide (start ≤ i ≤ end_)
           then Some (darken_hex (num_mul colorStep (num_of_Z (end_ - i))))
           else None.
Proof.
  intros Hv Hs end_ colorStep. unfold SliderColors_result.
  apply Qle_bool_iff in Hv. rewrite Hv. cbn [negb].
  rewrite (property_own _ _ _ Hs). cbn.
  eexists. split; [reflexivity|]. intros i. apply countdown_colors.
Qed.

(** ** The offsets *)

Lemma mapM_length {A B} (f : A → M B) (l : list A) :
  ∀ (w w' : World) (k : list B),
  mapM f l w = (Ret k, w') → length k = length l.
Proof.
  induction l as [|a l IH]; intros w w' k.
  - by intros [= <- _].
  - rewrite run_mapM_cons. intros (b & w1 & _ & H)%bind_ret_inv.
    apply bind_ret_inv in H as (k' & w2 & Hk' & [= <- _]).
    cbn. f_equal. by eapply IH.
Qed.

(** X8.  The offset of the layer at position [i] of the visible order is
    the number of computed vertices of the layers before it plus [i]: it
    is the layer's start in the flattened path only for the first layer,
    and runs ahead of it by one per earlier layer. *)
Theorem offsets_closed_form (fuel : nat) (state : State) (w w' : World)
    (perLayer : list Arr) :
  NoDup (getVisibleLayerIds state) →
  mapM (λ id, callComputedVertices fuel id state) (getVisibleLayerIds state) w
    = (Ret perLayer, w') →
  ∃ offsets,
    getVertexOffsets fuel state w = (Ret offsets, w') ∧
    ∀ (i : nat) id,
      getVisibleLayerIds state !! i = Some id →
      offsets !! id
      = Some (Z.of_nat (length (concat (elems <$> take i perLayer)))
              + Z.of_nat i).
Proof.
  intros Hnd Hrun.
  destruct (offsets_forEach_spec fuel state _ ∅ 0 w w' perLayer Hrun)
    as (offsets & Hoff & _ & Hfirst & Hnext).
  specialize (Hnext Hnd). pose proof (mapM_length _ _ _ _ _ Hrun) as Hlen.
  exists offsets. split; [exact Hoff|].
  induction i as [|i IH]; intros id Hid.
  - destruct (getVisibleLayerIds state) as [|first rest] eqn:Hids; [done|].
    injection Hid as ->. cbn. apply (Hfirst id rest eq_refl).
    by apply NoDup_cons in Hnd as [? _].
  - destruct (lookup_lt_is_Some_2 (getVisibleLayerIds state) i)
      as [current Hc]; [apply lookup_lt_Some in Hid; lia|].
    destruct (lookup_lt_is_Some_2 perLayer i) as [vs Hvs].
    { rewrite Hlen. by apply lookup_lt_Some in Hc. }
    destruct (Hnext i current id vs Hc Hid Hvs) as (o & Ho & ->).
    rewrite (IH current Hc) in Ho. injection Ho as <-.
    rewrite (take_S_r _ _ _ Hvs), fmap_app, concat_app, length_app. cbn.
    rewrite length_app. cbn. f_equal. lia.
Qed.

Lemma offsets_forEach_dom (fuel : nat) (state : State) (ids : list string) :
  ∀ (offsets0 offsets : gmap string Z) (offset0 : Z) (w w' : World),
  offsets_forEach fuel state ids offsets0 offset0 w = (Ret offsets, w') →
  dom offsets = dom offsets0 ∪ list_to_set ids.
Proof.
  induction ids as [|id ids IH]; intros offsets0 offsets offset0 w w'; cbn.
  - intros [= <- _]. set_solver.
  - intros (vs & w1 & _ & H)%bind_ret_inv.
    rewrite (IH _ _ _ _ _ H), dom_insert_L. set_solver.
Qed.

(** X9.  The offsets have an entry for exactly the visible layers. *)
Theorem offsets_keys (fuel : nat) (state : State) (w w' : World)
    (offsets : gmap string Z) :
  getVertexOffsets fuel state w = (Ret offsets, w') →
  ∀ id, is_Some (offsets !! id) ↔ id ∈ getVisibleLayerIds state.
Proof.
  intros H%offsets_forEach_dom id.
  rewrite <- elem_of_dom, H, dom_empty_L. set_solver.
Qed.

(** X7.  With a slider value that is not positive, the gradient of a
    layer that is not in the visible order, and whose id is not the name of
    a member of [Object.prototype], is empty: [offsets[layerId]] is
    undefined, and the loop does not run. *)
Theorem slider_colors_invisible (fuel : nat) (layerId : string)
    (state : State) (p : Preview) (w w' : World) (colors : gmap Z string) :
  layerId ∉ getVisibleLayerIds state →
  inherited layerId = false →
  getPreview state = Some p →
  (sliderValue p <= 0)%Q →
  getSliderColors fuel layerId state w = (Ret colors, w') →
  colors = ∅.
Proof.
  intros Hid Hown Hp Hv. unfold getSliderColors.
  intros (vertices & w1 & _ & H)%bind_ret_inv.
  apply bind_ret_inv in H as (layerVertices & w2 & _ & H).
  apply bind_ret_inv in H as (offsets & w3 & Hoff & H).
  assert (property offsets layerId = Undefined) as Hnone.
  { apply property_Undefined. split; [|done].
    apply offsets_forEach_dom in Hoff. apply not_elem_of_dom.
    rewrite Hoff, dom_empty_L. set_solver. }
  revert H. rewrite Hp. unfold SliderColors_result.
  apply Qle_bool_iff in Hv. rewrite Hv. cbn [negb]. rewrite Hnone.
  by intros [= <- _].
Qed.

(** ** Statistics *)

Lemma stats_fold (vertices : list Vertex) :
  ∀ (d : Num) (previous : Vertex),
  (foldl
     (λ (acc : Num * option Vertex) vertex,
        (match acc.2 with
         | Some previous => num_add acc.1 (segment vertex previous)
         | None => acc.1
         end, Some vertex))
     (d, Some previous) vertices).1
  = foldl num_add d (zip_with segment vertices (previous :: vertices)).
Proof.
  induction vertices as [|v vs IH]; intros d previous; [done|].
  cbn. apply IH.
Qed.

(** X10.  [getVerticesStats] counts the points of the flattened path, the
    sum of the layers' computed vertices, and its distance is the floor of
    the segment lengths between consecutive points of that path, added
    from the first segment on; a path of at most one point has the floor
    of 0. *)
Theorem stats_of_path (fuel : nat) (state : State) (w w' : World)
    (perLayer : list Arr) :
  mapM (λ id, callComputedVertices fuel id state) (getVisibleLayerIds state) w
    = (Ret perLayer, w') →
  let path := concat (elems <$> perLayer) in
  ∃ stats,
    getVerticesStats fuel state w = (Ret stats, w') ∧
    numPoints stats = sum_list (length ∘ elems <$> perLayer) ∧
    distance stats
    = num_floor (foldl num_add (num_of_Z 0)
                   (zip_with segment (tail path) path)) ∧
    ((length path ≤ 1)%nat → distance stats = num_floor (num_of_Z 0)).
Proof.
  intros Hrun path. eexists. split.
  { unfold getVerticesStats, getAllComputedVertices. rewrite run_bind.
    unfold getState. rewrite run_bind, Hrun. reflexivity. }
  fold path. split; [|split].
  - cbn. unfold path. clear. induction perLayer as [|a l IH]; [done|].
    cbn. rewrite length_app. by rewrite IH.
  - cbn. destruct path as [|v vs]; [done|]. cbn. f_equal. apply stats_fold.
  - cbn. destruct path as [|v [|v' vs]]; cbn; [done|done|lia].
Qed.

(** ** The preview track *)

Lemma track_fold (enabled : bool) (g : Z → Vertex) (l : list Z) :
  ∀ acc,
  foldl (λ trackVertices i,
           if enabled then trackVertices ++ [g i] else trackVertices) acc l
  = acc ++ (if enabled then g <$> l else []).
Proof.
  induction l as [|i l IH]; intros acc; cbn.
  - destruct enabled; by rewrite app_nil_r.
  - rewrite IH. destruct enabled; [|done]. by rewrite <- app_assoc.
Qed.

(** X11.  The preview track of a layer has one vertex per loop,
    [transformShape] of the origin at loop [i] for [i] from 0 to
    [numLoops - 1], each un-offset, rotated and moved by the Konva delta
    like a preview vertex; it is empty when the track is not enabled or
    [numLoops] is not positive. *)
Theorem track_vertices (layerId : string) (allLayers : Layers)
    (layer : Layer) (w : World) :
  byId allLayers !! layerId = Some layer →
  let konvaScale := num_of_Z (if autosize layer then 5 else 1) in
  let half := num_div (num_sub konvaScale (num_of_Z 1)) (num_of_Z 2) in
  let konvaDeltaX := num_mul half (startingWidth layer) in
  let konvaDeltaY := num_mul half (startingHeight layer) in
  let place vertex :=
    offset
      (rotate (offset vertex (num_neg (offsetX layer)) (num_neg (offsetY layer)))
         (rotation layer))
      konvaDeltaX (num_neg konvaDeltaY) in
  let loop i :=
    place (transformShape layer (victor (num_of_Z 0) (num_of_Z 0)) i i) in
  ∃ track w',
    PreviewTrackVertices_result layerId allLayers w = (Ret track, w') ∧
    elems track
    = (if trackEnabled layer then loop <$> seqZ 0 (numLoops layer) else []) ∧
    length (elems track)
    = if trackEnabled layer then Z.to_nat (numLoops layer) else 0%nat.
Proof.
  intros Hl. cbn zeta. unfold PreviewTrackVertices_result.
  rewrite (property_own _ _ _ Hl).
  rewrite track_fold. cbn [app].
  eexists _, _. split; [reflexivity|]. cbn [elems].
  destruct (trackEnabled layer), (autosize layer); cbn;
    rewrite <- ?list_fmap_compose, ?length_fmap, ?length_seqZ; done.
Qed.

(** ** What a lookup does and does not do *)

#[local] Instance quiet_preorder (layerId : string) : PreOrder (quiet layerId).
Proof.
  split; [by split|].
  intros w1 w2 w3 [] []. split; try congruence.
  intros k i Hi. by rewrite quiet_layers1, quiet_layers0.
Qed.

#[local] Instance keepsMachine_preorder : PreOrder keepsMachine.
Proof.
  split; [intros w; split; [reflexivity|done]|].
  intros w1 w2 w3 [? ?] [? ?]. split; [by etrans|congruence].
Qed.

#[local] Instance keepsRaw_preorder : PreOrder keepsRaw.
Proof.
  split; [intros w; split; [reflexivity|done]|].
  intros w1 w2 w3 (?&?&?) (?&?&?). split; [by etrans|split; congruence].
Qed.

Lemma getCachedSelector_quiet (fn : Maker) (layerId : string) :
  steps (quiet layerId) (make fn layerId) →
  steps (quiet layerId) (getCachedSelector fn layerId).
Proof.
  intros Hm w. rewrite getCachedSelector_run.
  assert (Hw : quiet layerId w (withName fn w)).
  { split; [intros k i _; apply selectorAt_withName|..];
      unfold withName; by destruct (cachedSelectors w !! name fn). }
  destruct (selectorAt w (name fn) layerId) as [n|] eqn:Hs; cbn; [done|].
  destruct (inherited layerId); cbn; [done|].
  specialize (Hm (withName fn w)).
  destruct (make fn layerId (withName fn w)) as [[n|e| |?] w2]; cbn in *.
  - etrans; [exact Hw|]. etrans; [exact Hm|]. split; [|done..].
    intros k i Hi. rewrite selectorAt_stored, decide_False; [done|].
    intros [_ ->]. done.
  - by etrans.
  - by etrans.
  - by etrans.
Qed.

Lemma steps_alloc_quiet (layerId : string) : steps (quiet layerId) alloc.
Proof. intros w. rewrite alloc_run. by split. Qed.

Lemma lookup_quiet (k : Kind) (layerId : string) :
  steps (quiet layerId) (getCachedSelector (maker k) layerId).
Proof.
  assert (Hleaf : ∀ fn, make fn layerId = createSelector →
            steps (quiet layerId) (getCachedSelector fn layerId)).
  { intros fn Hm. apply getCachedSelector_quiet. rewrite Hm.
    apply steps_alloc_quiet. }
  assert (HLV : steps (quiet layerId)
                  (getCachedSelector makeGetLayerVertices layerId)).
  { apply getCachedSelector_quiet. cbn [make makeGetLayerVertices].
    repeat (apply steps_bind; [apply _|by apply Hleaf|intros _]).
    apply steps_alloc_quiet. }
  assert (HT : steps (quiet layerId)
                 (getCachedSelector makeGetTransformedVertices layerId)).
  { apply getCachedSelector_quiet. cbn [make makeGetTransformedVertices].
    apply steps_bind; [apply _|exact HLV|intros _].
    repeat (apply steps_bind; [apply _|by apply Hleaf|intros _]).
    apply steps_alloc_quiet. }
  assert (HC : steps (quiet layerId)
                 (getCachedSelector makeGetComputedVertices layerId)).
  { apply getCachedSelector_quiet. cbn [make makeGetComputedVertices].
    apply steps_bind; [apply _|exact HT|intros _].
    repeat (apply steps_bind; [apply _|by apply Hleaf|intros _]).
    apply steps_alloc_quiet. }
  destruct k;
    [apply Hleaf; reflexivity..|exact HLV|exact HT|exact HC|].
  apply getCachedSelector_quiet. cbn [make maker makeGetPreviewVertices].
  apply steps_bind; [apply _|exact HT|intros _].
  apply steps_bind; [apply _|exact HC|intros _].
  apply steps_alloc_quiet.
Qed.

(** X12.  Looking a selector up runs nothing: a call of
    [getCachedSelector] for a maker and a layer leaves every memo, the
    cache, the history of generator calls and the console as they are,
    leaves the selectors of all other layers as they are, and registers
    selectors only under the names of the maker and of the makers it
    depends on. *)
Theorem lookup_effects (k : Kind) (layerId : string) (w : World) :
  quiet layerId w (getCachedSelector (maker k) layerId w).2 ∧
  touches (registers k) w (getCachedSelector (maker k) layerId w).2.
Proof. split; [apply lookup_quiet|apply registering_all]. Qed.

Lemma succeeds_bind {A B} (m : M A) (f : A → M B) :
  succeeds m → (∀ a, succeeds (f a)) → succeeds (m ≫= f).
Proof.
  intros Hm Hf w. destruct (Hm w) as (a & w1 & Ha).
  destruct (Hf a w1) as (b & w2 & Hb). exists b, w2.
  by rewrite (run_bind_ret _ _ _ _ _ Ha).
Qed.

Lemma succeeds_alloc : succeeds alloc.
Proof. intros w. rewrite alloc_run. eauto. Qed.

Lemma getCachedSelector_succeeds (fn : Maker) (layerId : string) :
  inherited layerId = false →
  succeeds (make fn layerId) → succeeds (getCachedSelector fn layerId).
Proof.
  intros Hown Hm w. rewrite getCachedSelector_run, Hown.
  destruct (selectorAt w (name fn) layerId); [eauto|].
  destruct (Hm (withName fn w)) as (n & w' & ->). eauto.
Qed.

(** For a layer id that objects do not inherit, every lookup returns a
    selector. *)
Lemma lookup_succeeds (k : Kind) (layerId : string) :
  inherited layerId = false →
  succeeds (getCachedSelector (maker k) layerId).
Proof.
  intros Hown.
  assert (Hleaf : ∀ fn, make fn layerId = createSelector →
            succeeds (getCachedSelector fn layerId)).
  { intros fn Hm. apply getCachedSelector_succeeds; [done|]. rewrite Hm.
    apply succeeds_alloc. }
  assert (HLV : succeeds (getCachedSelector makeGetLayerVertices layerId)).
  { apply getCachedSelector_succeeds; [done|].
    cbn [make makeGetLayerVertices].
    repeat (apply succeeds_bind; [by apply Hleaf|intros _]).
    apply succeeds_alloc. }
  assert (HT : succeeds
                 (getCachedSelector makeGetTransformedVertices layerId)).
  { apply getCachedSelector_succeeds; [done|].
    cbn [make makeGetTransformedVertices].
    apply succeeds_bind; [exact HLV|intros _].
    repeat (apply succeeds_bind; [by apply Hleaf|intros _]).
    apply succeeds_alloc. }
  assert (HC : succeeds (getCachedSelector makeGetComputedVertices layerId)).
  { apply getCachedSelector_succeeds; [done|].
    cbn [make makeGetComputedVertices].
    apply succeeds_bind; [exact HT|intros _].
    repeat (apply succeeds_bind; [by apply Hleaf|intros _]).
    apply succeeds_alloc. }
  destruct k;
    [apply Hleaf; reflexivity..|exact HLV|exact HT|exact HC|].
  apply getCachedSelector_succeeds; [done|].
  cbn [make maker makeGetPreviewVertices].
  apply succeeds_bind; [exact HT|intros _].
  apply succeeds_bind; [exact HC|intros _].
  apply succeeds_alloc.
Qed.

(** One lookup: the selector it returns, and what it leaves alone. *)
Lemma lookup_run (k : Kind) (layerId : string) (w : World) :
  inherited layerId = false →
  ∃ sel w',
    getCachedSelector (maker k) layerId w = (Ret sel, w') ∧
    selectorAt w' (name (maker k)) layerId = Some sel ∧
    grows w w' ∧ quiet layerId w w'.
Proof.
  intros Hown.
  destruct (lookup_succeeds k layerId Hown w) as (sel & w' & Hl).
  exists sel, w'. split; [exact Hl|].
  split; [by apply getCachedSelector_result in Hl|].
  pose proof (lookup_grows k layerId w) as Hg.
  pose proof (lookup_quiet k layerId w) as Hq.
  rewrite Hl in Hg, Hq. done.
Qed.

Lemma quiet_rawUntouched (layerId : string) (w w' : World) :
  quiet layerId w w' → rawUntouched w w'.
Proof. intros []. by repeat split. Qed.

(** ** A layer that is missing *)

Lemma callLayerMachine_missing (i : string) (s : State) (w : World) :
  consistent w → inherited i = false →
  byId (getLayersById s) !! i = None →
  ∃ w', callLayerMachine i s w = (Throw "TypeError", w') ∧
        rawUntouched w w'.
Proof.
  intros Hw Hown Hl.
  destruct (lookup_run KLayerMachine i w Hown)
    as (sel & w1 & Hs & Hreg & [Hc _] & Hq).
  cbn [maker name makeGetLayerMachine] in Hs, Hreg.
  unfold callLayerMachine. rewrite run_bind, Hs.
  assert (Hres : ∀ w0, LayerMachine_result i (getLayersById s) (getMachine s) w0
                       = (Throw "TypeError", w0)).
  { intros w0. rewrite LayerMachine_result_run.
    by rewrite (proj2 (property_Undefined _ _) (conj Hl Hown)). }
  rewrite memoized_run. cbn zeta. rewrite Hres.
  exists w1. split; [|by eapply quiet_rawUntouched].
  destruct (memoLayerMachine w1 !! sel) as [[lastArgs lastResult]|] eqn:Hm;
    [|done].
  case_bool_decide as Ha; [|done]. subst lastArgs.
  destruct (machine_memo w1 (Hc Hw) sel _ _ _ Hm) as (i' & Hi' & Hr').
  destruct (registry_injective w1 _ _ _ _ sel (Hc Hw) Hi' Hreg) as [_ ->].
  specialize (Hr' w1). by rewrite Hres in Hr'.
Qed.

Lemma callLayerVertices_missing (i : string) (s : State) (w : World) :
  consistent w → inherited i = false →
  byId (getLayersById s) !! i = None →
  ∃ w', callLayerVertices i s w = (Throw "TypeError", w') ∧
        rawUntouched w w'.
Proof.
  intros Hw Hown Hl.
  destruct (lookup_run KLayerVertices i w Hown)
    as (sel & wa & Hs & _ & [Hca _] & Hqa).
  destruct (callLayer_run i s wa Hown) as (wb & Hlay & [Hcb _] & Hrb).
  destruct (callLayerMachine_missing i s wb) as (wc & Hm & Hrc);
    [auto|done|done|].
  exists wc. unfold callLayerVertices.
  rewrite (run_bind_ret _ _ _ _ _ Hs), (run_bind_ret _ _ _ _ _ Hlay).
  rewrite run_bind, Hm. split; [done|].
  etrans; [by eapply quiet_rawUntouched|]. by etrans.
Qed.

Lemma callTransformedVertices_missing (i : string) (s : State) (w : World) :
  consistent w → inherited i = false →
  byId (getLayersById s) !! i = None →
  ∃ w', callTransformedVertices i s w = (Throw "TypeError", w') ∧
        rawUntouched w w'.
Proof.
  intros Hw Hown Hl.
  destruct (lookup_run KTransformedVertices i w Hown)
    as (sel & wa & Hs & _ & [Hca _] & Hqa).
  destruct (callLayerVertices_missing i s wa) as (wb & Hv & Hrb);
    [auto|done|done|].
  exists wb. unfold callTransformedVertices.
  rewrite (run_bind_ret _ _ _ _ _ Hs), run_bind, Hv. split; [done|].
  etrans; [by eapply quiet_rawUntouched|done].
Qed.

(** X13.  When the layers have no property for a layer id, neither own
    nor inherited from [Object.prototype], every stage of that layer throws
    a TypeError (raised where [makeGetLayerMachine] reads
    [layer.usesMachine]); no shape is generated and the cache and the memo
    of the raw stage are not touched. *)
Theorem missing_layer_throws (i : string) (s : State) (w : World)
    (fuel : nat) :
  consistent w →
  byId (getLayersById s) !! i = None →
  inherited i = false →
  (∃ w', callLayerVertices i s w = (Throw "TypeError", w') ∧
         rawUntouched w w') ∧
  (∃ w', callTransformedVertices i s w = (Throw "TypeError", w') ∧
         rawUntouched w w') ∧
  (∃ w', callComputedVertices (S fuel) i s w = (Throw "TypeError", w') ∧
         rawUntouched w w') ∧
  (∃ w', callPreviewVertices fuel i s w = (Throw "TypeError", w') ∧
         rawUntouched w w').
Proof.
  intros Hw Hl Hown.
  split; [by apply callLayerVertices_missing|].
  split; [by apply callTransformedVertices_missing|]. split.
  - destruct (lookup_run KComputedVertices i w Hown)
      as (sel & wa & Hs & _ & [Hca _] & Hqa).
    destruct (callTransformedVertices_missing i s wa) as (wb & Hv & Hrb);
      [auto|done|done|].
    exists wb. cbn [callComputedVertices].
    rewrite (run_bind_ret _ _ _ _ _ Hs), run_bind, Hv. split; [done|].
    etrans; [by eapply quiet_rawUntouched|done].
  - destruct (lookup_run KPreviewVertices i w Hown)
      as (sel & wa & Hs & _ & [Hca _] & Hqa).
    destruct (callTransformedVertices_missing i s wa) as (wb & Hv & Hrb);
      [auto|done|done|].
    exists wb. unfold callPreviewVertices.
    rewrite (run_bind_ret _ _ _ _ _ Hs), run_bind, Hv. split; [done|].
    etrans; [by eapply quiet_rawUntouched|done].
Qed.

(** ** The cache of the raw stage *)

(** X14.  For a cacheable layer whose key is not in the cache, the raw
    stage calls the generator once, returns its vertices in a new array
    and stores that array under the key.  When the cache then gives back
    what was stored, the next run returns that very array and generates
    nothing: it only reads the cache. *)
Theorem raw_cached_twice (layer : Layer) (machine : option Machine)
    (key : string) (c1 : Cache) (w : World) :
  shouldCache layer = true →
  let state := {| shape := layer; shape_machine := machine |} in
  JSON_stringify state = Some key →
  cache_get key (cache w) = (None, c1) →
  let vertices := {| arr_addr := next_addr w; elems := getVertices state |} in
  let first := LayerVertices_result (Some layer) machine w in
  first.1 = Ret vertices ∧
  generated first.2 = generated w ++ [state] ∧
  cache first.2 = cache_set key vertices c1 ∧
  ∀ c2, cache_get key (cache first.2) = (Some vertices, c2) →
        LayerVertices_result (Some layer) machine first.2
        = (Ret vertices, set_cache c2 first.2).
Proof.
  intros Hc state Hk Hmiss vertices first.
  assert (Hfirst : first
    = (Ret vertices,
       set_cache (cache_set key vertices c1)
         (set_next_addr (S (next_addr w))
            (set_generated (generated w ++ [state]) (set_cache c1 w))))).
  { subst first. unfold LayerVertices_result, getCacheKey. rewrite Hc.
    fold state. rewrite Hk. rewrite run_bind. cbn [mret M_ret].
    rewrite run_bind. unfold cacheGet at 1. rewrite Hmiss. reflexivity. }
  rewrite Hfirst. cbn [fst snd]. repeat split.
  intros c2 Hhit. unfold LayerVertices_result, getCacheKey. rewrite Hc.
  fold state. rewrite Hk. rewrite run_bind. cbn [mret M_ret].
  rewrite run_bind. unfold cacheGet. rewrite Hhit. reflexivity.
Qed.

(** ** Evaluating a stage again *)

Lemma memoized_stores {A R} `{EqDecision A} (get : World → Memo A R)
    (set : Memo A R → World → World) (sel : nat) (args : A) (body : M R)
    (w w' : World) (r : R) :
  (∀ m w0, get (set m w0) = m) →
  memoized get set sel args body w = (Ret r, w') →
  get w' !! sel = Some (args, r).
Proof.
  intros Hgs. rewrite memoized_run. cbn zeta.
  destruct (get w !! sel) as [[lastArgs lastResult]|].
  - case_bool_decide.
    + intros [= <- <-]. by rewrite Hgs, lookup_insert_eq.
    + destruct (body w) as [[?|?| |?] ?]; intros [= <- <-].
      by rewrite Hgs, lookup_insert_eq.
  - destruct (body w) as [[?|?| |?] ?]; intros [= <- <-].
    by rewrite Hgs, lookup_insert_eq.
Qed.

Lemma memoized_again {A R} `{EqDecision A} (get : World → Memo A R)
    (set : Memo A R → World → World) (sel : nat) (args : A) (body : M R)
    (w : World) (r : R) :
  (∀ w0, set (get w0) w0 = w0) →
  get w !! sel = Some (args, r) →
  memoized get set sel args body w = (Ret r, w).
Proof.
  intros Hsg Hm. rewrite memoized_run. cbn zeta. rewrite Hm.
  rewrite bool_decide_eq_true_2 by done.
  by rewrite insert_id, Hsg.
Qed.

Lemma set_memoLayerMachine_same (w : World) :
  set_memoLayerMachine (memoLayerMachine w) w = w.
Proof. by destruct w. Qed.

Lemma set_memoTransformed_same (w : World) :
  set_memoTransformed (memoTransformed w) w = w.
Proof. by destruct w. Qed.

Lemma lookup_keepsRaw (k : Kind) (i : string) :
  steps keepsRaw (getCachedSelector (maker k) i).
Proof.
  intros w. pose proof (lookup_grows k i w) as [_ Hp].
  pose proof (lookup_quiet k i w) as Hq.
  split; [exact Hp|]. by destruct Hq.
Qed.

Lemma callLayerMachine_settles (i : string) (s : State) (w w' : World)
    (m : option Machine) :
  callLayerMachine i s w = (Ret m, w') → settledMachine i s m w'.
Proof.
  unfold callLayerMachine. intros (sel & w1 & Hs & Hm)%bind_ret_inv.
  apply getCachedSelector_result in Hs. cbn [name makeGetLayerMachine] in Hs.
  exists sel. split.
  - pose proof (steps_memoized persists memoLayerMachine set_memoLayerMachine
                  sel (getLayersById s, getMachine s)
                  (LayerMachine_result i (getLayersById s) (getMachine s))) as Hp.
    unshelve epose proof (Hp _ _ w1) as Hp'.
    + intros w0. rewrite LayerMachine_result_run.
      destruct (property (byId (getLayersById s)) i); cbn; reflexivity.
    + by intros w0 m0 k j n.
    + rewrite Hm in Hp'. by apply Hp'.
  - by apply (memoized_stores memoLayerMachine set_memoLayerMachine _ _ _ _
                _ _ (λ _ _, eq_refl) Hm).
Qed.

Lemma settledMachine_again (i : string) (s : State) (w : World)
    (m : option Machine) :
  settledMachine i s m w → callLayerMachine i s w = (Ret m, w).
Proof.
  intros (sel & Hs & Hm). unfold callLayerMachine.
  rewrite (run_bind_ret _ _ _ _ _
             (getCachedSelector_registered makeGetLayerMachine _ _ _ Hs)).
  apply memoized_again; [apply set_memoLayerMachine_same|done].
Qed.

Lemma settledMachine_kept (i : string) (s : State) (w w' : World)
    (m : option Machine) :
  keepsMachine w w' → settledMachine i s m w → settledMachine i s m w'.
Proof.
  intros [Hp Hm] (sel & Hs & Hmemo). exists sel. split; [by apply Hp|].
  by rewrite Hm.
Qed.

Lemma callLayer_again (i : string) (s : State) (w : World) :
  is_Some (selectorAt w "makeGetLayer" i) →
  callLayer i s w = (Ret (getLayer i s), w).
Proof.
  intros [n Hn]. unfold callLayer.
  by rewrite (run_bind_ret _ _ _ _ _
                (getCachedSelector_registered makeGetLayer _ _ _ Hn)).
Qed.

Lemma callLayer_settles (i : string) (s : State) (w w' : World)
    (l : option Layer) :
  callLayer i s w = (Ret l, w') →
  l = getLayer i s ∧ is_Some (selectorAt w' "makeGetLayer" i) ∧
  keepsRaw w w'.
Proof.
  unfold callLayer. intros (n & w1 & Hn & [= <- <-])%bind_ret_inv.
  pose proof (lookup_keepsRaw KLayer i w) as Hk.
  change (maker KLayer) with makeGetLayer in Hk. rewrite Hn in Hk.
  apply getCachedSelector_result in Hn. by eauto.
Qed.

Lemma LayerVertices_result_keepsMachine layer machine :
  steps keepsMachine (LayerVertices_result layer machine).
Proof.
  intros w. split.
  - apply LayerVertices_result_grows.
  - unfold LayerVertices_result. destruct layer as [layer|]; [|done].
    destruct (shouldCache layer); cbn.
    + unfold getCacheKey. destruct (JSON_stringify _); [|done].
      rewrite run_bind. cbn [mret M_ret]. rewrite run_bind.
      unfold cacheGet. destruct (cache_get _ _) as [[v|] c]; done.
    + by destruct (_ && _).
Qed.

Lemma callLayerVertices_settles (i : string) (s : State) (w w' : World)
    (v : Arr) :
  callLayerVertices i s w = (Ret v, w') → settledRaw i s v w'.
Proof.
  unfold callLayerVertices. intros (sel & wa & Hs & H)%bind_ret_inv.
  apply bind_ret_inv in H as (l & wb & Hl & H).
  apply bind_ret_inv in H as (m & wc & Hm & H).
  apply getCachedSelector_result in Hs. cbn [name makeGetLayerVertices] in Hs.
  apply callLayer_settles in Hl as (-> & Hlay & Hkb & _).
  pose proof (callLayerMachine_grows i s wb) as [_ Hpc]. rewrite Hm in Hpc.
  apply callLayerMachine_settles in Hm.
  pose proof (steps_memoized keepsMachine memoLayerVertices
                set_memoLayerVertices sel (getLayer i s, m) _
                (LayerVertices_result_keepsMachine (getLayer i s) m)
                (λ w0 m0, conj (λ k j n H, H) eq_refl) wc) as Hkd.
  rewrite H in Hkd. cbn [snd] in Hkd.
  exists sel, m. split; [by apply Hkd, Hpc, Hkb|].
  split; [destruct Hlay as [n Hn]; exists n; by apply Hkd, Hpc|].
  split; [by eapply settledMachine_kept|].
  by apply (memoized_stores memoLayerVertices set_memoLayerVertices _ _ _ _
              _ _ (λ _ _, eq_refl) H).
Qed.

Lemma settledRaw_again (i : string) (s : State) (w : World) (v : Arr) :
  settledRaw i s v w → callLayerVertices i s w = (Ret v, w).
Proof.
  intros (sel & m & Hs & Hlay & Hm & Hmemo). unfold callLayerVertices.
  rewrite (run_bind_ret _ _ _ _ _
             (getCachedSelector_registered makeGetLayerVertices _ _ _ Hs)).
  rewrite (run_bind_ret _ _ _ _ _ (callLayer_again i s w Hlay)).
  rewrite (run_bind_ret _ _ _ _ _ (settledMachine_again i s w m Hm)).
  apply memoized_again; [apply set_memoLayerVertices_same|done].
Qed.

Lemma settledRaw_kept (i : string) (s : State) (w w' : World) (v : Arr) :
  keepsRaw w w' → settledRaw i s v w → settledRaw i s v w'.
Proof.
  intros (Hp & Hm & Hv) (sel & m & Hs & [n Hn] & Hsm & Hmemo).
  exists sel, m. split; [by apply Hp|]. split; [exists n; by apply Hp|].
  split; [by apply (settledMachine_kept i s w w')|]. by rewrite Hv.
Qed.

(** X15.  Evaluating the raw stage again in the same state is a
    no-operation: whatever the first evaluation did, the second returns
    the very same array and leaves the whole module state (registry,
    memos, cache, history of generator calls) as the first left it. *)
Theorem raw_again (i : string) (s : State) (w w1 : World) (v : Arr) :
  callLayerVertices i s w = (Ret v, w1) →
  callLayerVertices i s w1 = (Ret v, w1).
Proof. intros H. by apply settledRaw_again, (callLayerVertices_settles i s w). Qed.

Lemma callTransformedVertices_settles (i : string) (s : State)
    (w w1 : World) (v : Arr) :
  callTransformedVertices i s w = (Ret v, w1) → settledTransformed i s v w1.
Proof.
  unfold callTransformedVertices. intros (sel & wa & Hs & H)%bind_ret_inv.
  apply bind_ret_inv in H as (raw & wb & Hraw & H).
  apply bind_ret_inv in H as (l & wc & Hl & H).
  apply bind_ret_inv in H as (e & wd & He & H).
  apply getCachedSelector_result in Hs.
  cbn [name makeGetTransformedVertices] in Hs.
  pose proof (callLayerVertices_grows i s wa) as [_ Hpb]. rewrite Hraw in Hpb.
  apply callLayerVertices_settles in Hraw.
  apply callLayer_settles in Hl as (-> & _ & Hkc).
  unfold callEffects in He.
  apply bind_ret_inv in He as (ne & wd' & Hne & [= <- <-]).
  pose proof (lookup_keepsRaw KEffects i wc) as Hkd.
  change (maker KEffects) with makeGetEffects in Hkd. rewrite Hne in Hkd.
  apply getCachedSelector_result in Hne. cbn [name makeGetEffects] in Hne.
  pose proof (steps_memoized keepsRaw memoTransformed set_memoTransformed sel
                (raw, getLayer i s, getEffects i s)
                (TransformedVertices_result raw (getLayer i s) (getEffects i s)))
    as Hk1.
  unshelve epose proof (Hk1 _ _ wd') as Hk1'.
  { intros w0. unfold TransformedVertices_result, newArr.
    rewrite run_bind, alloc_run. cbn. split; [by intros k j n|done]. }
  { intros w0 m0. split; [by intros k j n|done]. }
  rewrite H in Hk1'. cbn [snd] in Hk1'.
  exists sel, raw. split; [|split; [|split]].
  - destruct Hkc as [Hpc _], Hkd as [Hpd _], Hk1' as [Hp1 _].
    by apply Hp1, Hpd, Hpc, Hpb.
  - exists ne. destruct Hk1' as [Hp1 _]. by apply Hp1.
  - eapply settledRaw_kept; [|exact Hraw]. etrans; [exact Hkc|].
    etrans; [exact Hkd|exact Hk1'].
  - by apply (memoized_stores memoTransformed set_memoTransformed _ _ _ _ _ _
                (λ _ _, eq_refl) H).
Qed.

Lemma callEffects_again (i : string) (s : State) (w : World) :
  is_Some (selectorAt w "makeGetEffects" i) →
  callEffects i s w = (Ret (getEffects i s), w).
Proof.
  intros [n Hn]. unfold callEffects.
  by rewrite (run_bind_ret _ _ _ _ _
                (getCachedSelector_registered makeGetEffects _ _ _ Hn)).
Qed.

Lemma settledTransformed_again (i : string) (s : State) (w : World)
    (v : Arr) :
  settledTransformed i s v w → callTransformedVertices i s w = (Ret v, w).
Proof.
  intros (sel & raw & Hs & He & Hraw & Hmemo). unfold callTransformedVertices.
  rewrite (run_bind_ret _ _ _ _ _
             (getCachedSelector_registered makeGetTransformedVertices _ _ _
                Hs)).
  rewrite (run_bind_ret _ _ _ _ _ (settledRaw_again i s w raw Hraw)).
  destruct Hraw as (_ & _ & _ & Hlay & _).
  rewrite (run_bind_ret _ _ _ _ _ (callLayer_again i s w Hlay)).
  rewrite (run_bind_ret _ _ _ _ _ (callEffects_again i s w He)).
  apply memoized_again; [apply set_memoTransformed_same|done].
Qed.

(** X16.  Evaluating the transformed stage again in the same state is a
    no-operation as well: the same array comes back, [transformShapes] is
    not applied again, and the module state is left as it is. *)
Theorem transformed_again (i : string) (s : State) (w w1 : World) (v : Arr) :
  callTransformedVertices i s w = (Ret v, w1) →
  callTransformedVertices i s w1 = (Ret v, w1).
Proof.
  intros H.
  by apply settledTransformed_again, (callTransformedVertices_settles i s w).
Qed.

(** X17.  A selector made by a lookup is new: when the registry of a
    consistent state has no selector of its own for a maker and a layer and
    the lookup returns a selector, then the layer id is not the name of a
    member of [Object.prototype] (for such a name the lookup calls no maker
    and hands out the inherited member, [lookup_inherited]), the maker was
    called, and the selector it made was not in the registry for any maker
    and layer before. *)
Theorem lookup_fresh (k : Kind) (i : string) (w w' : World) (n : nat) :
  consistent w →
  selectorAt w (name (maker k)) i = None →
  getCachedSelector (maker k) i w = (Ret n, w') →
  inherited i = false ∧
  (name (maker k), i, n) ∈ created w' ∧
  ∀ k' i', selectorAt w k' i' ≠ Some n.
Proof.
  intros Hw Hnone Hrun.
  pose proof (lookup_grows k i w) as [Hc Hp]. rewrite Hrun in Hc, Hp.
  split; [by apply (lookup_ret_own _ _ _ _ _ Hw Hrun)|].
  apply getCachedSelector_result in Hrun.
  split; [by apply (registry_history w' (Hc Hw))|].
  intros k' i' Hold.
  destruct (registry_injective w' _ _ _ _ n (Hc Hw) (Hp _ _ _ Hold) Hrun)
    as [-> ->].
  congruence.
Qed.

(** ** The transformed stage and the machine *)

Lemma settledMachine_value (i : string) (s : State) (layer : Layer)
    (m : option Machine) (w : World) :
  consistent w → settledMachine i s m w →
  byId (getLayersById s) !! i = Some layer →
  m = if usesMachine layer then Some (getMachine s) else None.
Proof.
  intros Hw (sel & Hs & Hm) Hl.
  destruct (machine_memo w Hw sel _ _ _ Hm) as (i' & Hi' & Hr').
  destruct (registry_injective w _ _ _ _ sel Hw Hi' Hs) as [_ ->].
  specialize (Hr' w).
  rewrite LayerMachine_result_run, (property_own _ _ _ Hl) in Hr'.
  by injection Hr' as <-.
Qed.

(** With its selector registered, the machine input changes nothing but
    the memo of that selector. *)
Lemma callLayerMachine_frame (i : string) (s : State) (w : World)
    (sel : nat) :
  selectorAt w "makeGetLayerMachine" i = Some sel →
  ∃ o mm, callLayerMachine i s w = (o, set_memoLayerMachine mm w).
Proof.
  intros Hs. unfold callLayerMachine.
  rewrite (run_bind_ret _ _ _ _ _
             (getCachedSelector_registered makeGetLayerMachine _ _ _ Hs)).
  rewrite memoized_run. cbn zeta. rewrite LayerMachine_result_run.
  assert (Hmiss : ∃ o mm,
    match
      match property (byId (getLayersById s)) i with
      | Own layer =>
          (Ret (if usesMachine layer then Some (getMachine s) else None), w)
      | Inherited _ => (Ret None, w)
      | Undefined => (Throw "TypeError", w)
      end
    with
    | (Ret r, w') =>
        (Ret r,
         set_memoLayerMachine
           (<[sel := ((getLayersById s, getMachine s), r)]>
              (memoLayerMachine w')) w')
    | (Throw e, w') => (Throw e, w')
    | (OutOfFuel, w') => (OutOfFuel, w')
    | (Builtin key, w') => (Builtin key, w')
    end = (o, set_memoLayerMachine mm w)).
  { destruct (property (byId (getLayersById s)) i); [by eauto..|].
    exists (Throw "TypeError"), (memoLayerMachine w).
    by rewrite set_memoLayerMachine_same. }
  destruct (memoLayerMachine w !! sel) as [[lastArgs lastResult]|];
    [|exact Hmiss].
  case_bool_decide; [by eauto|exact Hmiss].
Qed.

Lemma settledRaw_other_machine (i : string) (s1 s2 : State) (layer : Layer)
    (w : World) (raw : Arr) :
  consistent w →
  usesMachine layer = false →
  getLayer i s1 = Some layer → byId (getLayersById s1) !! i = Some layer →
  getLayer i s2 = Some layer → byId (getLayersById s2) !! i = Some layer →
  settledRaw i s1 raw w →
  ∃ mm, callLayerVertices i s2 w = (Ret raw, set_memoLayerMachine mm w).
Proof.
  intros Hw Hu Hl1 Hb1 Hl2 Hb2 (sel & m & Hs & Hlay & Hsm & Hmemo).
  pose proof (settledMachine_value i s1 layer m w Hw Hsm Hb1) as Hm.
  rewrite Hu in Hm. subst m.
  destruct Hsm as (selm & Hselm & _).
  destruct (callLayerMachine_frame i s2 w selm Hselm) as (o & mm & Hrun).
  destruct (callLayerMachine_value i s2 layer w Hw
              (registry_own w Hw _ _ _ Hs) Hb2) as (w' & Hval).
  rewrite Hu, Hrun in Hval. injection Hval as -> _.
  exists mm. unfold callLayerVertices.
  rewrite (run_bind_ret _ _ _ _ _
             (getCachedSelector_registered makeGetLayerVertices _ _ _ Hs)).
  rewrite (run_bind_ret _ _ _ _ _ (callLayer_again i s2 w Hlay)).
  rewrite (run_bind_ret _ _ _ _ _ Hrun), Hl2.
  apply memoized_again; [apply set_memoLayerVertices_same|].
  cbn. by rewrite <- Hl1.
Qed.

(** X18.  "Transformed vertices are not redrawn when machine settings
    change": for a layer that does not use the machine, once the
    transformed stage was evaluated in a state, evaluating it in a state
    with the same layer and effects and any other machine returns the same
    array; no shape is generated, [transformShapes] is not applied, and
    the only part of the module state that may change is the memo of the
    layer's machine selector. *)
Theorem transformed_ignores_machine (i : string) (s1 s2 : State)
    (layer : Layer) (w w1 : World) (v : Arr) :
  consistent w →
  usesMachine layer = false →
  getLayer i s1 = Some layer → byId (getLayersById s1) !! i = Some layer →
  getLayer i s2 = Some layer → byId (getLayersById s2) !! i = Some layer →
  getEffects i s1 = getEffects i s2 →
  callTransformedVertices i s1 w = (Ret v, w1) →
  ∃ mm, callTransformedVertices i s2 w1 = (Ret v, set_memoLayerMachine mm w1).
Proof.
  intros Hw Hu Hl1 Hb1 Hl2 Hb2 He Hrun.
  pose proof (callTransformedVertices_grows i s1 w) as [Hc _].
  rewrite Hrun in Hc. specialize (Hc Hw).
  apply callTransformedVertices_settles in Hrun
    as (sel & raw & Hs & Heff & Hraw & Hmemo).
  destruct (settledRaw_other_machine i s1 s2 layer w1 raw) as (mm & Hraw2);
    [done..|].
  exists mm. unfold callTransformedVertices.
  rewrite (run_bind_ret _ _ _ _ _
             (getCachedSelector_registered makeGetTransformedVertices _ _ _
                Hs)).
  rewrite (run_bind_ret _ _ _ _ _ Hraw2).
  destruct Hraw as (_ & _ & _ & Hlay & _).
  rewrite (run_bind_ret _ _ _ _ _
             (callLayer_again i s2 (set_memoLayerMachine mm w1) Hlay)).
  rewrite (run_bind_ret _ _ _ _ _
             (callEffects_again i s2 (set_memoLayerMachine mm w1) Heff)).
  apply memoized_again; [apply set_memoTransformed_same|].
  cbn. by rewrite Hl2, <- Hl1, <- He.
Qed.

End Further.

(** * The theorems at work on the demo drawing *)

Import Demo.

(** The square and the point of the demo drawing, joined by a direct line:
    the square's path ends with the point, which then follows as its own
    layer. *)
Example flattened_path :
  (getAllComputedVertices 2 (drawing "line" machine10) start).1
  = Ret [(0, 0); (1, 0); (1, 1); (0, 1); (5, 5); (5, 5)].
Proof. vm_compute. reflexivity. Qed.

(** Two visible layers need two nested calls: one is not enough. *)
Example one_call_is_not_enough :
  (callComputedVertices 1 "A" (drawing "line" machine10) start).1 = OutOfFuel.
Proof. vm_compute. reflexivity. Qed.

(** Asking twice for the path, and then with another machine, generates
    each of the two shapes once. *)
Example generated_once :
  length (generated
            (serveAll start
               [AllComputed 2 (drawing "line" machine10);
                AllComputed 2 (drawing "line" machine10);
                AllComputed 2 (drawing "line" machine20)])) = 2%nat.
Proof. vm_compute. reflexivity. Qed.

(** A layer id that names a member of [Object.prototype]: the registry
    hands that member out for every maker and makes no selector. *)
Example lookup_on_prototype :
  (getCachedSelector makeGetLayer "toString" start).1 = Builtin "toString" ∧
  (getCachedSelector makeGetComputedVertices "toString" start).1
  = Builtin "toString" ∧
  created (getCachedSelector makeGetComputedVertices "toString" start).2 = [].
Proof. vm_compute. repeat split; reflexivity. Qed.

(** A next id of that kind with no layer of its own is taken for a present
    layer that is not dragged: the stitch goes on, with the inherited
    member for the next layer's selector. *)
Example next_id_on_prototype :
  nextLayerOf (Some "toString") (layers (drawing "line" machine10))
  = Inherited "toString" ∧
  (stitched (callComputedVertices 1) "A" (arr 0 square) 0 (Some "toString") 2
     (layers (drawing "line" machine10)) machine10 start).1
  = Builtin "toString".
Proof. vm_compute. split; reflexivity. Qed.

(** The gradient of such an id: the preview selector is the inherited
    member. *)
Example gradient_on_prototype :
  (getSliderColors 2 "toString" (drawing "line" machine10) start).1
  = Builtin "toString".
Proof. vm_compute. reflexivity. Qed.

(** C1 on the demo drawing: the square after a change of machine. *)
Lemma raw_ignores_machine_witness :
  let first := callLayerVertices "A" (drawing "line" machine10) start in
  ∃ w2,
    callLayerVertices "A" (drawing "line" machine20) first.2
      = (Ret (arr 3 square), w2) ∧
    generated w2 = generated first.2 ∧ cache w2 = cache first.2 ∧
    memoLayerVertices w2 = memoLayerVertices first.2.
Proof.
  intros first.
  refine (proj2 (proj2
    (raw_ignores_machine "A" (drawing "line" machine10)
       (drawing "line" machine20)
       (layer 1 true false false false "line" square)
       start first.2 (arr 3 square)
       (consistent_initial empty_cache) _ _ _ _ _ _))).
  all: vm_compute; reflexivity.
Defined.

(** C2 on the demo drawing, machine perimeter at x = 10. *)
Lemma stitched_along_perimeter_witness :
  ∃ w',
    stitched (callComputedVertices 1) "A" (arr 0 square)
      0 (Some "B") 2 (layers (drawing "along perimeter" machine10)) machine10
      start
    = (Ret (square ++ [(10, 1)] ++ [(10, 3)] ++ [(10, 5)] ++ [(5, 5)]), w').
Proof.
  eexists.
  refine (stitched_along_perimeter (callComputedVertices 1) "A"
            (arr 0 square) 0 2
            (layers (drawing "along perimeter" machine10)) machine10
            start
            (layer 1 true false false false "along perimeter" square)
            (layer 2 true false false false "line" [(5, 5)]) "B"
            (arr 10 ([(5, 5)])) (5, 5) [] _
            _ _ _ _ _ _ _ _).
  - lia.
  - done.
  - vm_compute; reflexivity.
  - reflexivity.
  - vm_compute; reflexivity.
  - reflexivity.
  - vm_compute; reflexivity.
  - reflexivity.
Defined.

(** C3 on the demo drawing: the square is joined to the point by one
    vertex; with a next id that names nothing, [C], its path is left as it
    is. *)
Lemma stitched_direct_witness :
  (∃ w',
     stitched (callComputedVertices 1) "A" (arr 0 square)
       0 (Some "B") 2 (layers (drawing "line" machine10)) machine10 start
     = (Ret (square ++ [(5, 5)]), w')) ∧
  stitched (callComputedVertices 1) "A" (arr 0 square)
    0 (Some "C") 2 (layers (drawing "line" machine10)) machine10 start
  = (Ret square, logged "A" start).
Proof.
  split.
  - eexists.
    refine (proj1 (proj1
      (stitched_direct (callComputedVertices 1) "A"
         (arr 0 square) 0 (Some "B") 2
         (layers (drawing "line" machine10)) machine10 start
         (layer 1 true false false false "line" square) _ _ _)
      "B" (layer 2 true false false false "line" [(5, 5)])
      (arr 10 ([(5, 5)])) _ _ _ _ _ _) (5, 5) [] _).
    + lia.
    + vm_compute; reflexivity.
    + done.
    + reflexivity.
    + done.
    + vm_compute; reflexivity.
    + reflexivity.
    + vm_compute; reflexivity.
    + reflexivity.
  - refine (proj1 (proj2
      (stitched_direct (callComputedVertices 1) "A"
         (arr 0 square) 0 (Some "C") 2
         (layers (drawing "line" machine10)) machine10 start
         (layer 1 true false false false "line" square) _ _ _)) _).
    + lia.
    + vm_compute; reflexivity.
    + done.
    + vm_compute; reflexivity.
Defined.

(** C4 on the demo drawing: the square's five computed vertices put the
    point at offset 6. *)
Lemma offsets_consistent_witness :
  ∃ offsets w',
    getVertexOffsets 2 (drawing "line" machine10) start
      = (Ret offsets, w') ∧
    offsets !! "A" = Some 0 ∧ offsets !! "B" = Some 6.
Proof.
  pose proof
    (offsets_consistent 2 (drawing "line" machine10) start
       (mapM (λ id, callComputedVertices 2 id (drawing "line" machine10))
          ["A"; "B"] start).2
       [ (arr 21 (square ++ [(5, 5)]));
         (arr 20 ([(5, 5)])) ]
       ltac:(compute_done) ltac:(vm_compute; reflexivity))
    as (offsets & Hrun & Hfirst & Hnext).
  exists offsets. eexists. split; [exact Hrun|].
  destruct (Hnext 0%nat "A" "B" (arr 21 (square ++ [(5, 5)]))
              eq_refl eq_refl eq_refl) as (o & HA & HB).
  rewrite (Hfirst "A" ["B"] eq_refl) in HA. injection HA as <-.
  split; [by apply (Hfirst "A" ["B"])|exact HB].
Defined.

(** C5 on a square that is not cached. *)
Lemma raw_uncached_witness :
  ∃ a,
    (LayerVertices_result
       (Some (layer 1 false false false false "line" square)) None
       start).1
    = Ret (arr a square).
Proof.
  exact (proj1 (proj2
    (raw_uncached (layer 1 false false false false "line" square) None
       start eq_refl))).
Defined.

(** C6 on the demo drawing: the computed-vertices selector of the square. *)
Lemma registry_single_instance_witness :
  let s := drawing "line" machine10 in
  let w1 := (getCachedSelector (maker KComputedVertices) "A"
               (serveAll start [AllComputed 2 s])).2 in
  let w2 := serveAll w1 [Offsets 2 s; Lookup KPreviewVertices "A"] in
  getCachedSelector (maker KComputedVertices) "A" w2 = (Ret 7%nat, w2) ∧
  NoDup (created w2).*1.
Proof.
  intros s w1 w2.
  refine (registry_single_instance empty_cache [AllComputed 2 s]
            [Offsets 2 s; Lookup KPreviewVertices "A"]
            KComputedVertices "A" 7%nat w1 _).
  vm_compute; reflexivity.
Defined.

(** C7 on the demo drawing: two visible layers, two nested calls. *)
Lemma computed_terminates_witness :
  ∃ outcome w',
    callComputedVertices 2 "A" (drawing "line" machine10) start
      = (outcome, w') ∧
    outcome ≠ OutOfFuel.
Proof.
  refine (computed_terminates (drawing "line" machine10) _ _ _ _ _ "A"
            start _).
  - reflexivity.
  - reflexivity.
  - reflexivity.
  - reflexivity.
  - intros id next.
    change (next_of id ["A"; "B"] = Some next →
            index_of id ["A"; "B"] 0 < index_of next ["A"; "B"] 0).
    cbn [next_of]. case_bool_decide as Hid; [|done].
    intros [= <-]. subst id. vm_compute. reflexivity.
  - vm_compute. split; [discriminate|reflexivity].
Defined.

(** C8, as the code has it, on a layer at offset 2 with four vertices. *)
Lemma slider_colors_keys_witness :
  ∃ colors,
    SliderColors_result "L" [] (Some {| sliderValue := 0 |})
      (arr 0 square) {[ "L" := 2 ]} start
      = (Ret colors, initial []) ∧
    (∀ i, is_Some (colors !! i) ↔ 2 ≤ i ≤ 6) ∧
    size colors = 5%nat.
Proof.
  refine (slider_colors_keys "L" [] {| sliderValue := 0 |}
            (arr 0 square) {[ "L" := 2 ]} 2
            start _ _).
  - vm_compute. intros [=].
  - vm_compute; reflexivity.
Defined.

(** C8 as stated fails: the layer occupying [[2,6)] gets five keys, index
    6 among them. *)
Lemma slider_colors_counterexample :
  ∃ colors,
    SliderColors_result "L" [] (Some {| sliderValue := 0 |})
      (arr 0 square) {[ "L" := 2 ]} start
      = (Ret colors, initial []) ∧
    size colors = 5%nat ∧ is_Some (colors !! 6) ∧
    ¬ (∀ i, is_Some (colors !! i) ↔ 2 ≤ i < 6).
Proof.
  eexists. split; [vm_compute; reflexivity|].
  split; [vm_compute; reflexivity|].
  split.
  - eexists. vm_compute. reflexivity.
  - intros H. destruct (H 6) as [Hin _].
    assert (2 ≤ 6 < 6) as [_ ?]; [|lia].
    apply Hin. eexists. vm_compute. reflexivity.
Qed.

(** C9, as the code has it, on the layer [seeded]. *)
Lemma raw_unserializable_witness :
  LayerVertices_result (Some seeded) None start
  = (Throw "TypeError", initial []).
Proof. exact (raw_unserializable seeded None start eq_refl eq_refl). Defined.

(** C9 as stated fails: the cacheable layer [seeded] cannot be serialized,
    and the raw stage throws instead of returning the generator's result;
    nothing reaches the console. *)
Lemma raw_unserializable_counterexample :
  shouldCache seeded = true ∧
  JSON_stringify {| shape := seeded; shape_machine := None |} = None ∧
  LayerVertices_result (Some seeded) None start
    = (Throw "TypeError", initial []) ∧
  ¬ ∃ vertices w',
      LayerVertices_result (Some seeded) None start
        = (Ret vertices, w').
Proof.
  split; [reflexivity|]. split; [reflexivity|]. split; [reflexivity|].
  intros (vertices & w' & H). vm_compute in H. discriminate H.
Qed.

(** C10 on the square of the demo drawing, which is not dragged. *)
Lemma preview_source_witness :
  ∃ a w',
    PreviewVertices_result "A" (layers (drawing "line" machine10)) machine10
      (arr 4 square)
      (arr 21 (square ++ [(5, 5)])) start
    = (Ret (arr a (square ++ [(5, 5)])), w').
Proof.
  destruct (preview_source "A" (layers (drawing "line" machine10)) machine10
              (arr 4 square)
              (arr 21 (square ++ [(5, 5)]))
              (layer 1 true false false false "line" square) start
              ltac:(vm_compute; reflexivity)) as (a & w' & H).
  exists a, w'. rewrite H. reflexivity.
Defined.

(** * The further properties at work on the demo drawing *)

(** X1 on the first lookup after load: selector 7 is the computed stage
    of layer [A], and no later lookup returns it for anything else. *)
Lemma registry_distinct_witness :
  let w1 := (getCachedSelector makeGetComputedVertices "A" start).2 in
  getCachedSelector makeGetComputedVertices "A" start = (Ret 7%nat, w1) ∧
  ∀ k' i' w2,
    getCachedSelector (maker k') i' w1 = (Ret 7%nat, w2) →
    KComputedVertices = k' ∧ "A" = i'.
Proof.
  intros w1.
  assert (Hfirst : getCachedSelector (maker KComputedVertices) "A"
                     (serveAll (initial empty_cache) []) = (Ret 7%nat, w1)).
  { vm_compute. reflexivity. }
  split; [exact Hfirst|]. intros k' i' w2 Hsecond.
  destruct (registry_distinct empty_cache [] [] KComputedVertices k' "A" i'
              7%nat w1 w2 Hfirst Hsecond) as (Hk & Hi & _).
  split; [exact Hk|exact Hi].
Defined.

(** X2 on the square, which does not use the machine. *)
Lemma machine_input_witness :
  (callLayerMachine "A" (drawing "line" machine10) start).1 = Ret None.
Proof.
  assert (Hlayer : byId (getLayersById (drawing "line" machine10)) !! "A"
                   = Some (layer 1 true false false false "line" square)).
  { vm_compute. reflexivity. }
  exact (machine_input "A" (drawing "line" machine10)
           (layer 1 true false false false "line" square) start
           (consistent_initial empty_cache) Hlayer).
Defined.

(** X3 on the point, the last of the two visible layers. *)
Lemma last_layer_unstitched_witness :
  ComputedVertices_result (callComputedVertices 1) "B" (arr 0 [(5, 5)]) 1
    (Some "A") 2 (layers (drawing "line" machine10)) machine10 start
  = (Ret (arr 0 [(5, 5)]), set_next_addr 1 (logged "B" start)).
Proof.
  refine (last_layer_unstitched (callComputedVertices 1) "B" (arr 0 [(5, 5)])
            1 (Some "A") 2 (layers (drawing "line" machine10)) machine10
            start _).
  lia.
Defined.

(** X4 on the square stitched to the point. *)
Lemma stitched_keeps_prefix_witness :
  ∃ bridge, square ++ [(5, 5)] = square ++ bridge.
Proof.
  pose (w' := (stitched (callComputedVertices 1) "A" (arr 0 square) 0
                 (Some "B") 2 (layers (drawing "line" machine10)) machine10
                 start).2).
  assert (Hrun : stitched (callComputedVertices 1) "A" (arr 0 square) 0
                   (Some "B") 2 (layers (drawing "line" machine10)) machine10
                   start = (Ret (square ++ [(5, 5)]), w')).
  { vm_compute. reflexivity. }
  destruct (stitched_keeps_prefix _ _ _ _ _ _ _ _ _ _ _ Hrun)
    as (bridge & Hpath & _).
  exists bridge. exact Hpath.
Defined.

(** X5 with the slider at one half over a path of four points. *)
Lemma slider_colors_positive_witness :
  ∃ colors,
    SliderColors_result "A" square (Some {| sliderValue := 1 # 2 |})
      (arr 0 square) ∅ start = (Ret colors, start) ∧
    ∀ i, colors !! i
         = if bool_decide (0 ≤ i ≤ 4)
           then Some (darken_hex (num_mul (num_div (num_div 3 8) (4 - 0))
                                    (4 - i)))
           else None.
Proof.
  refine (slider_colors_positive "A" square {| sliderValue := 1 # 2 |}
            (arr 0 square) ∅ start _).
  reflexivity.
Defined.

(** X6 on a layer at offset 2 with four vertices. *)
Lemma slider_colors_values_witness :
  ∃ colors,
    SliderColors_result "L" [] (Some {| sliderValue := 0 |}) (arr 0 square)
      {[ "L" := 2 ]} start = (Ret colors, start) ∧
    ∀ i, colors !! i
         = if bool_decide (2 ≤ i ≤ 6)
           then Some (darken_hex (num_mul (num_div (num_div 3 8) (6 - 2))
                                    (6 - i)))
           else None.
Proof.
  refine (slider_colors_values "L" [] {| sliderValue := 0 |} (arr 0 square)
            {[ "L" := 2 ]} 2 start _ _).
  - vm_compute. intros [=].
  - vm_compute; reflexivity.
Defined.

(** X7 on the hidden layer [D]. *)
Lemma slider_colors_invisible_witness :
  ∃ colors w',
    getSliderColors 2 "D" (drawingWithHidden machine10) start
      = (Ret colors, w') ∧
    colors = ∅.
Proof.
  pose (w' := (getSliderColors 2 "D" (drawingWithHidden machine10) start).2).
  pose (colors := match (getSliderColors 2 "D" (drawingWithHidden machine10)
                           start).1 with
                  | Ret colors => colors
                  | _ => {[ 0 := "none" ]}
                  end).
  assert (Hrun : getSliderColors 2 "D" (drawingWithHidden machine10) start
                 = (Ret colors, w')).
  { vm_compute. reflexivity. }
  exists colors, w'. split; [exact Hrun|].
  refine (slider_colors_invisible 2 "D" (drawingWithHidden machine10)
            {| sliderValue := 0 |} start w' colors _ _ eq_refl _ Hrun).
  - compute_done.
  - vm_compute. reflexivity.
  - vm_compute. intros [=].
Defined.

(** X8 on the demo drawing: the point starts at index 5 of the path and
    has offset 6. *)
Lemma offsets_closed_form_witness :
  ∃ offsets w',
    getVertexOffsets 2 (drawing "line" machine10) start = (Ret offsets, w') ∧
    offsets !! "B" = Some (5 + 1).
Proof.
  pose (w' := (mapM (λ id, callComputedVertices 2 id
                             (drawing "line" machine10))
                 ["A"; "B"] start).2).
  assert (Hrun : mapM (λ id, callComputedVertices 2 id
                               (drawing "line" machine10))
                   (getVisibleLayerIds (drawing "line" machine10)) start
                 = (Ret [arr 21 (square ++ [(5, 5)]); arr 20 [(5, 5)]], w')).
  { vm_compute. reflexivity. }
  assert (Hnd : NoDup (getVisibleLayerIds (drawing "line" machine10))).
  { compute_done. }
  destruct (offsets_closed_form 2 (drawing "line" machine10) start w' _
              Hnd Hrun) as (offsets & Hoff & Hat).
  exists offsets, w'. split; [exact Hoff|].
  exact (Hat 1%nat "B" eq_refl).
Defined.

(** X9 on the demo drawing. *)
Lemma offsets_keys_witness :
  ∃ offsets w',
    getVertexOffsets 2 (drawing "line" machine10) start = (Ret offsets, w') ∧
    ∀ id, is_Some (offsets !! id) ↔ id ∈ ["A"; "B"].
Proof.
  pose (w' := (getVertexOffsets 2 (drawing "line" machine10) start).2).
  pose (offsets := ({[ "A" := 0; "B" := 6 ]} : gmap string Z)).
  assert (Hrun : getVertexOffsets 2 (drawing "line" machine10) start
                 = (Ret offsets, w')).
  { vm_compute. reflexivity. }
  exists offsets, w'. split; [exact Hrun|].
  exact (offsets_keys 2 (drawing "line" machine10) start w' offsets Hrun).
Defined.

(** X10 on the demo drawing: six points; the integer square roots of the
    stand-in give 1 + 1 + 1 + 6 + 0. *)
Lemma stats_of_path_witness :
  ∃ stats w',
    getVerticesStats 2 (drawing "line" machine10) start = (Ret stats, w') ∧
    numPoints stats = 6%nat ∧ distance stats = 9.
Proof.
  pose (w' := (mapM (λ id, callComputedVertices 2 id
                             (drawing "line" machine10))
                 ["A"; "B"] start).2).
  assert (Hrun : mapM (λ id, callComputedVertices 2 id
                               (drawing "line" machine10))
                   (getVisibleLayerIds (drawing "line" machine10)) start
                 = (Ret [arr 21 (square ++ [(5, 5)]); arr 20 [(5, 5)]], w')).
  { vm_compute. reflexivity. }
  destruct (stats_of_path 2 (drawing "line" machine10) start w' _ Hrun)
    as (stats & Hstats & Hpoints & Hdist & _).
  exists stats, w'. split; [exact Hstats|].
  split; [exact Hpoints|exact Hdist].
Defined.

(** X11 on the square: four loops. *)
Lemma track_vertices_witness :
  ∃ track w',
    PreviewTrackVertices_result "A" (layers (drawing "line" machine10)) start
      = (Ret track, w') ∧
    elems track = [(0, 0); (1, 0); (2, 0); (3, 0)] ∧
    length (elems track) = 4%nat.
Proof.
  exact (track_vertices "A" (layers (drawing "line" machine10))
           (layer 1 true false false false "line" square) start eq_refl).
Defined.

(** X13 on a layer id the demo drawing does not have. *)
Lemma missing_layer_throws_witness :
  ∃ w',
    callComputedVertices 1 "Z" (drawing "line" machine10) start
      = (Throw "TypeError", w') ∧
    rawUntouched start w'.
Proof.
  assert (Hmissing : byId (getLayersById (drawing "line" machine10)) !! "Z"
                     = None).
  { vm_compute. reflexivity. }
  assert (Hown : inherited "Z" = false).
  { vm_compute. reflexivity. }
  exact (proj1 (proj2 (proj2
    (missing_layer_throws "Z" (drawing "line" machine10) start 0
       (consistent_initial empty_cache) Hmissing Hown)))).
Defined.

(** X14 on the square and the budgeted store of the demo. *)
Lemma raw_cached_twice_witness :
  let first :=
    LayerVertices_result (Some (layer 1 true false false false "line" square))
      None start in
  first.1 = Ret (arr 0 square) ∧
  LayerVertices_result (Some (layer 1 true false false false "line" square))
    None first.2
  = (Ret (arr 0 square),
     set_cache [("0:0,1:0,1:1,0:1|null", (0%nat, square))] first.2).
Proof.
  intros first.
  destruct (raw_cached_twice (E := externals)
              (layer 1 true false false false "line" square)
              None "0:0,1:0,1:1,0:1|null" empty_cache start
              eq_refl ltac:(vm_compute; reflexivity)
              ltac:(vm_compute; reflexivity)) as (Hfirst & _ & _ & Hsecond).
  split; [exact Hfirst|].
  apply (Hsecond [("0:0,1:0,1:1,0:1|null", (0%nat, square))]).
  vm_compute. reflexivity.
Defined.

(** X15 on the square. *)
Lemma raw_again_witness :
  let w1 := (callLayerVertices "A" (drawing "line" machine10) start).2 in
  callLayerVertices "A" (drawing "line" machine10) w1
  = (Ret (arr 3 square), w1).
Proof.
  intros w1.
  refine (raw_again "A" (drawing "line" machine10) start w1 (arr 3 square) _).
  vm_compute. reflexivity.
Defined.

(** X16 on the square. *)
Lemma transformed_again_witness :
  let w1 := (callTransformedVertices "A" (drawing "line" machine10) start).2 in
  callTransformedVertices "A" (drawing "line" machine10) w1
  = (Ret (arr 6 square), w1).
Proof.
  intros w1.
  refine (transformed_again "A" (drawing "line" machine10) start w1
            (arr 6 square) _).
  vm_compute. reflexivity.
Defined.

(** X17 on the first lookup after load. *)
Lemma lookup_fresh_witness :
  selectorAt start "makeGetComputedVertices" "A" = None ∧
  (getCachedSelector makeGetComputedVertices "A" start).1 = Ret 7%nat ∧
  inherited "A" = false ∧
  ∀ k' i', selectorAt start k' i' ≠ Some 7%nat.
Proof.
  pose (w' := (getCachedSelector makeGetComputedVertices "A" start).2).
  assert (Hnone : selectorAt start (name (maker KComputedVertices)) "A"
                  = None).
  { vm_compute. reflexivity. }
  assert (Hrun : getCachedSelector (maker KComputedVertices) "A" start
                 = (Ret 7%nat, w')).
  { vm_compute. reflexivity. }
  split; [exact Hnone|]. split; [exact (f_equal fst Hrun)|].
  destruct (lookup_fresh KComputedVertices "A" start w' 7%nat
              (consistent_initial empty_cache) Hnone Hrun)
    as (Hown & _ & Hfresh).
  split; [exact Hown|exact Hfresh].
Defined.

(** X18 on the square after a change of machine. *)
Lemma transformed_ignores_machine_witness :
  let w1 := (callTransformedVertices "A" (drawing "line" machine10) start).2 in
  ∃ mm,
    callTransformedVertices "A" (drawing "line" machine20) w1
    = (Ret (arr 6 square), set_memoLayerMachine mm w1).
Proof.
  intros w1.
  refine (transformed_ignores_machine "A" (drawing "line" machine10)
            (drawing "line" machine20)
            (layer 1 true false false false "line" square) start w1
            (arr 6 square) (consistent_initial empty_cache) _ _ _ _ _ _ _).
  all: vm_compute; reflexivity.
Defined.
